(** * The voice session orchestrator of the technician app

    A shallow embedding of the [VoiceAgent] class (the real-time voice
    client of the technician app), of the tool registry [functionMap] in
    [voiceAgentTools.ts], and of the transition table documented in
    [docs/step10_voice_agent.md].

    The class is single-threaded and event-driven: every callback runs to
    its next [await] without interruption, and what is suspended at an
    [await] is resumed by a later event.  The embedding follows that
    shape: a [World] holds the fields of the object together with the
    platform objects it talks to (data channels, peer connections, audio
    contexts, pending promises, timers) and [step] runs one callback of
    the event loop on it.  What the object does to the outside is
    appended to a trace of [Effect]s. *)

From stdpp Require Import base option list strings gmap.
From Stdlib Require Import ZArith Lia.

Set Default Proof Using "Type".
Set Warnings "-register-all".
Local Open Scope string_scope.
Local Open Scope list_scope.
Local Open Scope nat_scope.

(** ** JavaScript values *)

(** The values [JSON.parse] produces.  An object is the list of its
    fields; a property read takes the first field of that name. *)
Inductive json : Type :=
| JNull
| JBool (b : bool)
| JNum (n : Z)
| JStr (s : string)
| JArr (items : list json)
| JObj (fields : list (string * json)).

(** A JavaScript value that may be [undefined] ([None]). *)
Abbreviation jsval := (option json).

(** What a [throw] carries: an [Error] instance with its message, or
    some other value. *)
Inductive Thrown : Type :=
| JsError (message : string)
| JsNonError.

(** [error instanceof Error ? error.message : 'Unknown error'] *)
Definition error_message (e : Thrown) : string :=
  match e with
  | JsError m => m
  | JsNonError => "Unknown error"
  end.

(** Truthiness of a value, as [if (v)] and [v ? a : b] test it. *)
Definition truthy (v : jsval) : bool :=
  match v with
  | None => false
  | Some JNull => false
  | Some (JBool b) => b
  | Some (JNum n) => negb (n =? 0)%Z
  | Some (JStr s) => negb (String.eqb s "")
  | Some (JArr _) => true
  | Some (JObj _) => true
  end.

Definition truthy_string (s : string) : bool := negb (String.eqb s "").

Fixpoint assoc (k : string) (fields : list (string * json)) : jsval :=
  match fields with
  | [] => None
  | (k', v) :: rest => if String.eqb k k' then Some v else assoc k rest
  end.

(** [String.prototype.includes] *)
Fixpoint includes (s sub : string) : bool :=
  String.prefix sub s ||
  match s with
  | EmptyString => false
  | String _ s' => includes s' sub
  end.

(** What the platform supplies and the repository only calls. *)
Class Platform : Type := {
  (** [JSON.parse]: the value, or the message of the [SyntaxError]. *)
  JSON_parse : string -> string + json;
  (** [atob]: the decoded binary string, or [None] for the
      [InvalidCharacterError]. *)
  atob : string -> option string;
  (** Message of the [TypeError] raised by reading property [p] of
      [null]. *)
  TypeError_null : string -> string;
  (** Message of the [InvalidStateError] raised by [send] on a channel
      that is not open. *)
  InvalidStateError : string;
}.

(** ** The workflow states and the documented transition table *)

Module Workflow.

(** [WorkflowState] of [api.ts]. *)
Inductive WorkflowState : Type :=
| CLOCKED_IN
| TRAVELING_TO_FIRST_JOB
| AT_JOBSITE
| WORKING_ON_JOB
| JOB_COMPLETED
| TRAVELING_TO_NEXT_JOB
| TRAVELING_TO_OFFICE
| DAY_COMPLETED.

#[global] Instance WorkflowState_eq_dec : EqDecision WorkflowState.
Proof. solve_decision. Defined.

Definition all_states : list WorkflowState :=
  [CLOCKED_IN; TRAVELING_TO_FIRST_JOB; AT_JOBSITE; WORKING_ON_JOB;
   JOB_COMPLETED; TRAVELING_TO_NEXT_JOB; TRAVELING_TO_OFFICE; DAY_COMPLETED].

(** The string literal of a state, as it travels in requests. *)
Definition state_name (s : WorkflowState) : string :=
  match s with
  | CLOCKED_IN => "CLOCKED_IN"
  | TRAVELING_TO_FIRST_JOB => "TRAVELING_TO_FIRST_JOB"
  | AT_JOBSITE => "AT_JOBSITE"
  | WORKING_ON_JOB => "WORKING_ON_JOB"
  | JOB_COMPLETED => "JOB_COMPLETED"
  | TRAVELING_TO_NEXT_JOB => "TRAVELING_TO_NEXT_JOB"
  | TRAVELING_TO_OFFICE => "TRAVELING_TO_OFFICE"
  | DAY_COMPLETED => "DAY_COMPLETED"
  end.

(** [validTransitions] inside [validateStateTransition]
    (docs/step10_voice_agent.md). *)
Definition validTransitions (s : WorkflowState) : list WorkflowState :=
  match s with
  | CLOCKED_IN => [TRAVELING_TO_FIRST_JOB]
  | TRAVELING_TO_FIRST_JOB => [AT_JOBSITE]
  | AT_JOBSITE => [WORKING_ON_JOB]
  | WORKING_ON_JOB => [JOB_COMPLETED]
  | JOB_COMPLETED => [TRAVELING_TO_NEXT_JOB; TRAVELING_TO_OFFICE]
  | TRAVELING_TO_NEXT_JOB => [AT_JOBSITE]
  | TRAVELING_TO_OFFICE => [DAY_COMPLETED]
  | DAY_COMPLETED => []
  end.

(** [validTransitions[currentState].includes(newState)] *)
Definition validateStateTransition (currentState newState : WorkflowState) : bool :=
  bool_decide (newState ∈ validTransitions currentState).

(** The table of section 4.4 of the specification, row by row. *)
Inductive table_edge : WorkflowState -> WorkflowState -> Prop :=
| edge_clocked_in : table_edge CLOCKED_IN TRAVELING_TO_FIRST_JOB
| edge_first_job : table_edge TRAVELING_TO_FIRST_JOB AT_JOBSITE
| edge_at_jobsite : table_edge AT_JOBSITE WORKING_ON_JOB
| edge_working : table_edge WORKING_ON_JOB JOB_COMPLETED
| edge_completed_next : table_edge JOB_COMPLETED TRAVELING_TO_NEXT_JOB
| edge_completed_office : table_edge JOB_COMPLETED TRAVELING_TO_OFFICE
| edge_next_job : table_edge TRAVELING_TO_NEXT_JOB AT_JOBSITE
| edge_office : table_edge TRAVELING_TO_OFFICE DAY_COMPLETED.

End Workflow.

(** ** The tool registry: [voiceAgentTools.ts] over [api.ts] *)

Module Tools.

(** A number argument of an [api] function: [parseInt(v)] of a value,
    kept unevaluated, or [undefined]. *)
Inductive jsnum : Type :=
| parseInt (v : jsval)
| undefined.

(** One [axios] request of [api.ts], named by verb and endpoint, with
    the values that travel in its URL and body.  (The [technician_id]
    that [updateWorkOrderNotes] reads from [localStorage] is not part
    of the term.) *)
Inductive Request : Type :=
| GET_work_orders (technicianId : jsval)
| GET_status (technicianId : jsval)
| GET_inventory (truckId : jsval)
| PATCH_inventory (truckId itemId quantity : jsval)
| PUT_notes (orderId : jsnum) (notes alertOffice : jsval)
| POST_manual_notification (notification : jsval)
| POST_timing_start (orderId : jsnum) (technicianId : jsval)
| POST_timing_end (orderId : jsnum) (technicianId notes : jsval)
| PATCH_workflow_state (technicianId state : jsval)
    (currentWorkOrderId nextWorkOrderId : jsnum).

(** How the promise of a request settles. *)
Inductive Settled : Type :=
| Fulfilled (data : jsval)
| Rejected (e : Thrown).

(** An [async] function of the registry, up to its next [await]: it
    has returned, it has thrown, or it waits for a request. *)
Inductive Prog : Type :=
| Return (v : jsval)
| Raise (e : Thrown)
| Await (r : Request) (k : Settled -> Prog).

Fixpoint bind (p : Prog) (f : jsval -> Prog) : Prog :=
  match p with
  | Return v => f v
  | Raise e => Raise e
  | Await r k => Await r (fun s => bind (k s) f)
  end.

Declare Scope prog_scope.
Delimit Scope prog_scope with prog.
Notation "x <- p ;; q" := (bind p (fun x => q))
  (at level 20, p at level 99, q at level 200, only parsing) : prog_scope.
Notation "p ;;; q" := (bind p (fun _ => q))
  (at level 100, q at level 200, only parsing, right associativity) : prog_scope.
Local Open Scope prog_scope.

(** [const response = await axios...; return response.data] *)
Definition axios (r : Request) : Prog :=
  Await r (fun s => match s with
                    | Fulfilled data => Return data
                    | Rejected e => Raise e
                    end).

Module api.
Definition getTechnicianWorkOrders (technicianId : jsval) : Prog :=
  axios (GET_work_orders technicianId).
Definition getTechnicianStatus (technicianId : jsval) : Prog :=
  axios (GET_status technicianId).
Definition getTruckInventory (truckId : jsval) : Prog :=
  axios (GET_inventory truckId).
(** [Promise<void>]: the response is dropped. *)
Definition updateTruckInventory (truckId itemId quantity : jsval) : Prog :=
  axios (PATCH_inventory truckId itemId quantity) ;;; Return None.
Definition updateWorkOrderNotes (orderId : jsnum) (notes alertOffice : jsval) : Prog :=
  axios (PUT_notes orderId notes alertOffice).
Definition createManualNotification (notification : jsval) : Prog :=
  axios (POST_manual_notification notification).
Definition startJobTiming (orderId : jsnum) (technicianId : jsval) : Prog :=
  axios (POST_timing_start orderId technicianId).
Definition endJobTiming (orderId : jsnum) (technicianId notes : jsval) : Prog :=
  axios (POST_timing_end orderId technicianId notes).
Definition updateWorkflowState (technicianId state : jsval)
    (currentWorkOrderId nextWorkOrderId : jsnum) : Prog :=
  axios (PATCH_workflow_state technicianId state currentWorkOrderId nextWorkOrderId).
End api.

Definition lit (s : string) : jsval := Some (JStr s).
Definition jtrue : jsval := Some (JBool true).
Definition jfalse : jsval := Some (JBool false).

(** The entries of [functionMap]. *)
Definition start_travel (work_order_id technician_id : jsval) : Prog :=
  api.updateWorkflowState technician_id (lit "TRAVELING_TO_FIRST_JOB")
    (parseInt work_order_id) undefined ;;;
  api.updateWorkOrderNotes (parseInt work_order_id)
    (lit "Started traveling to work order location") jtrue.

Definition end_travel (work_order_id technician_id : jsval) : Prog :=
  api.updateWorkflowState technician_id (lit "AT_JOBSITE")
    (parseInt work_order_id) undefined ;;;
  api.updateWorkOrderNotes (parseInt work_order_id)
    (lit "Arrived at work order location") jtrue.

(** [alert_office: boolean = false]: the default replaces [undefined]. *)
Definition update_work_order_notes (work_order_id notes alert_office : jsval) : Prog :=
  api.updateWorkOrderNotes (parseInt work_order_id) notes
    (match alert_office with None => jfalse | Some _ => alert_office end).

Definition start_job (work_order_id technician_id : jsval) : Prog :=
  api.updateWorkflowState technician_id (lit "WORKING_ON_JOB")
    (parseInt work_order_id) undefined ;;;
  api.startJobTiming (parseInt work_order_id) technician_id.

Definition end_job (work_order_id technician_id notes : jsval) : Prog :=
  api.updateWorkflowState technician_id (lit "JOB_COMPLETED")
    (parseInt work_order_id) undefined ;;;
  response <- api.endJobTiming (parseInt work_order_id) technician_id None ;;
  if truthy notes
  then api.updateWorkOrderNotes (parseInt work_order_id) notes jtrue ;;; Return response
  else Return response.

Definition update_workflow_state
    (technician_id state current_work_order_id next_work_order_id : jsval) : Prog :=
  api.updateWorkflowState technician_id state
    (if truthy current_work_order_id then parseInt current_work_order_id else undefined)
    (if truthy next_work_order_id then parseInt next_work_order_id else undefined).

(** The own keys of [functionMap]. *)
Definition functionMap_keys : list string :=
  ["get_work_orders"; "get_technician_status"; "start_travel"; "end_travel";
   "update_work_order_notes"; "check_inventory"; "update_inventory";
   "create_manual_notification"; "start_job"; "end_job"; "update_workflow_state"].

End Tools.

(** ** The session client: class [VoiceAgent] *)

Module VoiceAgent.
Import Tools.

(** [interface FunctionCall] *)
Record FunctionCall : Type := {
  name : string;
  arguments : string;
  call_id : option string;
}.

(** [RTCDataChannel.readyState] *)
Inductive ReadyState : Type := connecting | open | closing | closed.
(** [AudioContext.state] *)
Inductive AudioState : Type := suspended | running | audio_closed.
(** [RTCPeerConnection.iceConnectionState] *)
Inductive IceState : Type :=
| ice_new | ice_checking | ice_connected | ice_completed
| ice_failed | ice_disconnected | ice_closed.

#[global] Instance ReadyState_eq_dec : EqDecision ReadyState.
Proof. solve_decision. Defined.
#[global] Instance AudioState_eq_dec : EqDecision AudioState.
Proof. solve_decision. Defined.
#[global] Instance IceState_eq_dec : EqDecision IceState.
Proof. solve_decision. Defined.

(** *** Messages of the control channel *)

(** An entry of [output_item.content]. *)
Inductive ContentItem : Type :=
| content_text (text : jsval)
| content_audio (audio : string)
| content_function_call (name arguments : string)
| content_other (type : string).

(** A server event, by its [type], with the fields the client reads. *)
Inductive ServerEvent : Type :=
| session_created
| session_updated
| error (message : option string)
| input_audio_buffer_speech_started
| input_audio_buffer_speech_stopped
| input_audio_buffer_committed
| response_created
| response_function_call_started
| response_function_call_arguments_delta (delta : string)
| response_function_call_arguments_done (name : string) (call_id : option string)
| response_output_item_added (content : option (list ContentItem))
| response_done (status reason error_code : option string)
| unknown_type (type : string).

(** [event.data]: text that [JSON.parse] rejects with the given
    message, or the text of a server event. *)
Inductive Inbound : Type :=
| unparseable (syntax_error : string)
| parsed (ev : ServerEvent).

(** The [output] of a [function_call_output] item, before
    [JSON.stringify]: the handler's result, or [{error: text}]. *)
Inductive Output : Type :=
| output_result (result : jsval)
| output_error (text : string).

(** What the client sends on the control channel.  The last form,
    [{type: "function_call_output", role: "system", output}], is that
    of the earlier revision of the client. *)
Inductive ClientEvent : Type :=
| session_update (technicianName technicianId : string)
| response_create
| function_call_output (call_id : option string) (output : Output)
| system_function_call_output (output : Output).

(** *** The event loop *)

(** The events of the [EventEmitter]. *)
Inductive Emission : Type :=
| ev_datachannel_open
| ev_datachannel_close
| ev_datachannel_error
| ev_error (e : Thrown)
| ev_speech_started
| ev_speech_stopped
| ev_response_done
| ev_text (text : jsval)
| ev_connected
| ev_disconnected.

(** The asynchronous operations the client awaits. *)
Inductive Operation : Type :=
| fetch_token
| read_text
| read_json
| getUserMedia
| createOffer (pc : nat)
| setLocalDescription (pc : nat) (offer : jsval)
| fetch_connect (sdp : jsval)
| setRemoteDescription (pc : nat) (sdp : jsval)
| request (r : Request)
| resume (ctx : nat)
| decodeAudioData (ctx : nat) (data : string).

(** How an awaited promise settles. *)
Inductive Settlement : Type :=
| resolved
| resolved_response (ok : bool)
| resolved_text (text : string)
| resolved_json (v : jsval)
| resolved_stream (stream : nat) (tracks : list string)
| rejected (e : Thrown).

(** What the client does to the outside, in the order it does it.
    Console output is left out, except the message of the guard of
    [connect]. *)
Inductive Effect : Type :=
| Sent (channel : nat) (m : ClientEvent)
| Emitted (e : Emission)
| Awaiting (task : nat) (op : Operation)
| Logged (text : string)
| CreatedPeer (pc : nat)
| AddedTrack (pc : nat) (track : string)
| CreatedChannel (pc channel : nat)
| StoppedTracks (stream : nat)
| ClosedChannel (channel : nat)
| ClosedPeer (pc : nat)
| ClosedContext (ctx : nat)
| Played (stream : nat)
| Started (ctx : nat) (audio : string)
| Unhandled (e : Thrown)
| Failed (e : Thrown).

(** Who waits for [handleFunctionCall]: [handleWebSocketMessage]
    awaits it inside its [try]; [handleResponseContent] does not. *)
Inductive Caller : Type := by_message | by_content.

(** Where a call of [connect] is suspended. *)
Inductive ConnectStage : Type :=
| await_token
| await_token_text
| await_token_json
| await_media
| await_offer
| await_local (offer : jsval)
| await_answer
| await_answer_json
| await_remote.

(** A suspended [async] call: the coroutine and the locals it keeps. *)
Inductive Task : Type :=
| in_connect (stage : ConnectStage) (via_start : bool)
| in_handler (functionName : string) (k : Settled -> Prog) (caller : Caller)
| in_grace (functionName : string) (caller : Caller)
| in_resume (ctx : nat) (base64Audio : string)
| in_decode (base64Audio : string).

(** A continuation queued as a microtask: [playAudioDelta] behind
    [await this.ensureAudioContext()] when no [resume()] is awaited. *)
Inductive Microtask : Type :=
| decode_later (task : nat) (base64Audio : string).

(** The callbacks given to [setTimeout]. *)
Inductive TimerAction : Type :=
| clear_active_response
| resolve_grace (task : nat).

Record Timer : Type := { due : nat; action : TimerAction }.

(** The object and the platform around it.  Platform objects are
    numbered from [fresh]. *)
Record World : Type := {
  (* fields of the object *)
  peerConnection : option nat;
  dataChannel : option nat;
  mediaStream : option nat;
  audioContext : option nat;
  srcObject : option nat;              (* audioElement.srcObject *)
  isActive : bool;
  functionCall : option FunctionCall;
  functionCallArgs : string;
  functionCallArgumentsBuffer : string;
  technicianId : option string;
  technicianName : option string;
  hasActiveResponse : bool;
  (* the platform *)
  channels : gmap nat ReadyState;      (* readyState of each data channel *)
  ice : gmap nat IceState;             (* iceConnectionState of each peer connection *)
  watched : gset nat;                  (* peers with oniceconnectionstatechange set *)
  contexts : gmap nat AudioState;      (* state of each audio context *)
  autoplay : AudioState;               (* state a new audio context starts in *)
  fresh : nat;
  pending : gmap nat Task;
  timers : list Timer;                 (* ordered by due time *)
  clock : nat;                         (* milliseconds *)
  trace : list Effect;
}.

Definition set_peerConnection (v : option nat) (w : World) : World :=
  {| peerConnection := v; dataChannel := dataChannel w; mediaStream := mediaStream w; audioContext
     := audioContext w; srcObject := srcObject w; isActive := isActive w; functionCall :=
     functionCall w; functionCallArgs := functionCallArgs w; functionCallArgumentsBuffer :=
     functionCallArgumentsBuffer w; technicianId := technicianId w; technicianName := technicianName
     w; hasActiveResponse := hasActiveResponse w; channels := channels w; ice := ice w; watched :=
     watched w; contexts := contexts w; autoplay := autoplay w; fresh := fresh w; pending := pending
     w; timers := timers w; clock := clock w; trace := trace w |}.
Definition set_dataChannel (v : option nat) (w : World) : World :=
  {| peerConnection := peerConnection w; dataChannel := v; mediaStream := mediaStream w;
     audioContext := audioContext w; srcObject := srcObject w; isActive := isActive w; functionCall
     := functionCall w; functionCallArgs := functionCallArgs w; functionCallArgumentsBuffer :=
     functionCallArgumentsBuffer w; technicianId := technicianId w; technicianName := technicianName
     w; hasActiveResponse := hasActiveResponse w; channels := channels w; ice := ice w; watched :=
     watched w; contexts := contexts w; autoplay := autoplay w; fresh := fresh w; pending := pending
     w; timers := timers w; clock := clock w; trace := trace w |}.
Definition set_mediaStream (v : option nat) (w : World) : World :=
  {| peerConnection := peerConnection w; dataChannel := dataChannel w; mediaStream := v;
     audioContext := audioContext w; srcObject := srcObject w; isActive := isActive w; functionCall
     := functionCall w; functionCallArgs := functionCallArgs w; functionCallArgumentsBuffer :=
     functionCallArgumentsBuffer w; technicianId := technicianId w; technicianName := technicianName
     w; hasActiveResponse := hasActiveResponse w; channels := channels w; ice := ice w; watched :=
     watched w; contexts := contexts w; autoplay := autoplay w; fresh := fresh w; pending := pending
     w; timers := timers w; clock := clock w; trace := trace w |}.
Definition set_audioContext (v : option nat) (w : World) : World :=
  {| peerConnection := peerConnection w; dataChannel := dataChannel w; mediaStream := mediaStream
     w; audioContext := v; srcObject := srcObject w; isActive := isActive w; functionCall :=
     functionCall w; functionCallArgs := functionCallArgs w; functionCallArgumentsBuffer :=
     functionCallArgumentsBuffer w; technicianId := technicianId w; technicianName := technicianName
     w; hasActiveResponse := hasActiveResponse w; channels := channels w; ice := ice w; watched :=
     watched w; contexts := contexts w; autoplay := autoplay w; fresh := fresh w; pending := pending
     w; timers := timers w; clock := clock w; trace := trace w |}.
Definition set_srcObject (v : option nat) (w : World) : World :=
  {| peerConnection := peerConnection w; dataChannel := dataChannel w; mediaStream := mediaStream
     w; audioContext := audioContext w; srcObject := v; isActive := isActive w; functionCall :=
     functionCall w; functionCallArgs := functionCallArgs w; functionCallArgumentsBuffer :=
     functionCallArgumentsBuffer w; technicianId := technicianId w; technicianName := technicianName
     w; hasActiveResponse := hasActiveResponse w; channels := channels w; ice := ice w; watched :=
     watched w; contexts := contexts w; autoplay := autoplay w; fresh := fresh w; pending := pending
     w; timers := timers w; clock := clock w; trace := trace w |}.
Definition set_isActive (v : bool) (w : World) : World :=
  {| peerConnection := peerConnection w; dataChannel := dataChannel w; mediaStream := mediaStream
     w; audioContext := audioContext w; srcObject := srcObject w; isActive := v; functionCall :=
     functionCall w; functionCallArgs := functionCallArgs w; functionCallArgumentsBuffer :=
     functionCallArgumentsBuffer w; technicianId := technicianId w; technicianName := technicianName
     w; hasActiveResponse := hasActiveResponse w; channels := channels w; ice := ice w; watched :=
     watched w; contexts := contexts w; autoplay := autoplay w; fresh := fresh w; pending := pending
     w; timers := timers w; clock := clock w; trace := trace w |}.
Definition set_functionCall (v : option FunctionCall) (w : World) : World :=
  {| peerConnection := peerConnection w; dataChannel := dataChannel w; mediaStream := mediaStream
     w; audioContext := audioContext w; srcObject := srcObject w; isActive := isActive w;
     functionCall := v; functionCallArgs := functionCallArgs w; functionCallArgumentsBuffer :=
     functionCallArgumentsBuffer w; technicianId := technicianId w; technicianName := technicianName
     w; hasActiveResponse := hasActiveResponse w; channels := channels w; ice := ice w; watched :=
     watched w; contexts := contexts w; autoplay := autoplay w; fresh := fresh w; pending := pending
     w; timers := timers w; clock := clock w; trace := trace w |}.
Definition set_functionCallArgs (v : string) (w : World) : World :=
  {| peerConnection := peerConnection w; dataChannel := dataChannel w; mediaStream := mediaStream
     w; audioContext := audioContext w; srcObject := srcObject w; isActive := isActive w;
     functionCall := functionCall w; functionCallArgs := v; functionCallArgumentsBuffer :=
     functionCallArgumentsBuffer w; technicianId := technicianId w; technicianName := technicianName
     w; hasActiveResponse := hasActiveResponse w; channels := channels w; ice := ice w; watched :=
     watched w; contexts := contexts w; autoplay := autoplay w; fresh := fresh w; pending := pending
     w; timers := timers w; clock := clock w; trace := trace w |}.
Definition set_functionCallArgumentsBuffer (v : string) (w : World) : World :=
  {| peerConnection := peerConnection w; dataChannel := dataChannel w; mediaStream := mediaStream
     w; audioContext := audioContext w; srcObject := srcObject w; isActive := isActive w;
     functionCall := functionCall w; functionCallArgs := functionCallArgs w;
     functionCallArgumentsBuffer := v; technicianId := technicianId w; technicianName :=
     technicianName w; hasActiveResponse := hasActiveResponse w; channels := channels w; ice := ice
     w; watched := watched w; contexts := contexts w; autoplay := autoplay w; fresh := fresh w;
     pending := pending w; timers := timers w; clock := clock w; trace := trace w |}.
Definition set_technicianId (v : option string) (w : World) : World :=
  {| peerConnection := peerConnection w; dataChannel := dataChannel w; mediaStream := mediaStream
     w; audioContext := audioContext w; srcObject := srcObject w; isActive := isActive w;
     functionCall := functionCall w; functionCallArgs := functionCallArgs w;
     functionCallArgumentsBuffer := functionCallArgumentsBuffer w; technicianId := v; technicianName
     := technicianName w; hasActiveResponse := hasActiveResponse w; channels := channels w; ice :=
     ice w; watched := watched w; contexts := contexts w; autoplay := autoplay w; fresh := fresh w;
     pending := pending w; timers := timers w; clock := clock w; trace := trace w |}.
Definition set_technicianName (v : option string) (w : World) : World :=
  {| peerConnection := peerConnection w; dataChannel := dataChannel w; mediaStream := mediaStream
     w; audioContext := audioContext w; srcObject := srcObject w; isActive := isActive w;
     functionCall := functionCall w; functionCallArgs := functionCallArgs w;
     functionCallArgumentsBuffer := functionCallArgumentsBuffer w; technicianId := technicianId w;
     technicianName := v; hasActiveResponse := hasActiveResponse w; channels := channels w; ice :=
     ice w; watched := watched w; contexts := contexts w; autoplay := autoplay w; fresh := fresh w;
     pending := pending w; timers := timers w; clock := clock w; trace := trace w |}.
Definition set_hasActiveResponse (v : bool) (w : World) : World :=
  {| peerConnection := peerConnection w; dataChannel := dataChannel w; mediaStream := mediaStream
     w; audioContext := audioContext w; srcObject := srcObject w; isActive := isActive w;
     functionCall := functionCall w; functionCallArgs := functionCallArgs w;
     functionCallArgumentsBuffer := functionCallArgumentsBuffer w; technicianId := technicianId w;
     technicianName := technicianName w; hasActiveResponse := v; channels := channels w; ice := ice
     w; watched := watched w; contexts := contexts w; autoplay := autoplay w; fresh := fresh w;
     pending := pending w; timers := timers w; clock := clock w; trace := trace w |}.
Definition set_channels (v : gmap nat ReadyState) (w : World) : World :=
  {| peerConnection := peerConnection w; dataChannel := dataChannel w; mediaStream := mediaStream
     w; audioContext := audioContext w; srcObject := srcObject w; isActive := isActive w;
     functionCall := functionCall w; functionCallArgs := functionCallArgs w;
     functionCallArgumentsBuffer := functionCallArgumentsBuffer w; technicianId := technicianId w;
     technicianName := technicianName w; hasActiveResponse := hasActiveResponse w; channels := v; ice
     := ice w; watched := watched w; contexts := contexts w; autoplay := autoplay w; fresh := fresh
     w; pending := pending w; timers := timers w; clock := clock w; trace := trace w |}.
Definition set_ice (v : gmap nat IceState) (w : World) : World :=
  {| peerConnection := peerConnection w; dataChannel := dataChannel w; mediaStream := mediaStream
     w; audioContext := audioContext w; srcObject := srcObject w; isActive := isActive w;
     functionCall := functionCall w; functionCallArgs := functionCallArgs w;
     functionCallArgumentsBuffer := functionCallArgumentsBuffer w; technicianId := technicianId w;
     technicianName := technicianName w; hasActiveResponse := hasActiveResponse w; channels :=
     channels w; ice := v; watched := watched w; contexts := contexts w; autoplay := autoplay w;
     fresh := fresh w; pending := pending w; timers := timers w; clock := clock w; trace := trace w
     |}.
Definition set_watched (v : gset nat) (w : World) : World :=
  {| peerConnection := peerConnection w; dataChannel := dataChannel w; mediaStream := mediaStream
     w; audioContext := audioContext w; srcObject := srcObject w; isActive := isActive w;
     functionCall := functionCall w; functionCallArgs := functionCallArgs w;
     functionCallArgumentsBuffer := functionCallArgumentsBuffer w; technicianId := technicianId w;
     technicianName := technicianName w; hasActiveResponse := hasActiveResponse w; channels :=
     channels w; ice := ice w; watched := v; contexts := contexts w; autoplay := autoplay w; fresh :=
     fresh w; pending := pending w; timers := timers w; clock := clock w; trace := trace w |}.
Definition set_contexts (v : gmap nat AudioState) (w : World) : World :=
  {| peerConnection := peerConnection w; dataChannel := dataChannel w; mediaStream := mediaStream
     w; audioContext := audioContext w; srcObject := srcObject w; isActive := isActive w;
     functionCall := functionCall w; functionCallArgs := functionCallArgs w;
     functionCallArgumentsBuffer := functionCallArgumentsBuffer w; technicianId := technicianId w;
     technicianName := technicianName w; hasActiveResponse := hasActiveResponse w; channels :=
     channels w; ice := ice w; watched := watched w; contexts := v; autoplay := autoplay w; fresh :=
     fresh w; pending := pending w; timers := timers w; clock := clock w; trace := trace w |}.
Definition set_autoplay (v : AudioState) (w : World) : World :=
  {| peerConnection := peerConnection w; dataChannel := dataChannel w; mediaStream := mediaStream
     w; audioContext := audioContext w; srcObject := srcObject w; isActive := isActive w;
     functionCall := functionCall w; functionCallArgs := functionCallArgs w;
     functionCallArgumentsBuffer := functionCallArgumentsBuffer w; technicianId := technicianId w;
     technicianName := technicianName w; hasActiveResponse := hasActiveResponse w; channels :=
     channels w; ice := ice w; watched := watched w; contexts := contexts w; autoplay := v; fresh :=
     fresh w; pending := pending w; timers := timers w; clock := clock w; trace := trace w |}.
Definition set_fresh (v : nat) (w : World) : World :=
  {| peerConnection := peerConnection w; dataChannel := dataChannel w; mediaStream := mediaStream
     w; audioContext := audioContext w; srcObject := srcObject w; isActive := isActive w;
     functionCall := functionCall w; functionCallArgs := functionCallArgs w;
     functionCallArgumentsBuffer := functionCallArgumentsBuffer w; technicianId := technicianId w;
     technicianName := technicianName w; hasActiveResponse := hasActiveResponse w; channels :=
     channels w; ice := ice w; watched := watched w; contexts := contexts w; autoplay := autoplay w;
     fresh := v; pending := pending w; timers := timers w; clock := clock w; trace := trace w |}.
Definition set_pending (v : gmap nat Task) (w : World) : World :=
  {| peerConnection := peerConnection w; dataChannel := dataChannel w; mediaStream := mediaStream
     w; audioContext := audioContext w; srcObject := srcObject w; isActive := isActive w;
     functionCall := functionCall w; functionCallArgs := functionCallArgs w;
     functionCallArgumentsBuffer := functionCallArgumentsBuffer w; technicianId := technicianId w;
     technicianName := technicianName w; hasActiveResponse := hasActiveResponse w; channels :=
     channels w; ice := ice w; watched := watched w; contexts := contexts w; autoplay := autoplay w;
     fresh := fresh w; pending := v; timers := timers w; clock := clock w; trace := trace w |}.
Definition set_timers (v : list Timer) (w : World) : World :=
  {| peerConnection := peerConnection w; dataChannel := dataChannel w; mediaStream := mediaStream
     w; audioContext := audioContext w; srcObject := srcObject w; isActive := isActive w;
     functionCall := functionCall w; functionCallArgs := functionCallArgs w;
     functionCallArgumentsBuffer := functionCallArgumentsBuffer w; technicianId := technicianId w;
     technicianName := technicianName w; hasActiveResponse := hasActiveResponse w; channels :=
     channels w; ice := ice w; watched := watched w; contexts := contexts w; autoplay := autoplay w;
     fresh := fresh w; pending := pending w; timers := v; clock := clock w; trace := trace w |}.
Definition set_clock (v : nat) (w : World) : World :=
  {| peerConnection := peerConnection w; dataChannel := dataChannel w; mediaStream := mediaStream
     w; audioContext := audioContext w; srcObject := srcObject w; isActive := isActive w;
     functionCall := functionCall w; functionCallArgs := functionCallArgs w;
     functionCallArgumentsBuffer := functionCallArgumentsBuffer w; technicianId := technicianId w;
     technicianName := technicianName w; hasActiveResponse := hasActiveResponse w; channels :=
     channels w; ice := ice w; watched := watched w; contexts := contexts w; autoplay := autoplay w;
     fresh := fresh w; pending := pending w; timers := timers w; clock := v; trace := trace w |}.
Definition set_trace (v : list Effect) (w : World) : World :=
  {| peerConnection := peerConnection w; dataChannel := dataChannel w; mediaStream := mediaStream
     w; audioContext := audioContext w; srcObject := srcObject w; isActive := isActive w;
     functionCall := functionCall w; functionCallArgs := functionCallArgs w;
     functionCallArgumentsBuffer := functionCallArgumentsBuffer w; technicianId := technicianId w;
     technicianName := technicianName w; hasActiveResponse := hasActiveResponse w; channels :=
     channels w; ice := ice w; watched := watched w; contexts := contexts w; autoplay := autoplay w;
     fresh := fresh w; pending := pending w; timers := timers w; clock := clock w; trace := v |}.

(** [new VoiceAgent()]: the constructor creates audio context [0]. *)
Definition init (autoplay : AudioState) : World :=
  {| peerConnection := None; dataChannel := None; mediaStream := None;
     audioContext := Some 0; srcObject := None; isActive := false;
     functionCall := None; functionCallArgs := ""; functionCallArgumentsBuffer := "";
     technicianId := None; technicianName := None; hasActiveResponse := false;
     channels := ∅; ice := ∅; watched := ∅; contexts := {[ 0 := autoplay ]};
     autoplay := autoplay; fresh := 1; pending := ∅; timers := []; clock := 0;
     trace := [] |}.

(** *** Synchronous code *)

(** A stretch of code between two suspension points: it changes the
    world, and completes with a value or throws.  What it changed
    before throwing stays changed. *)
Definition M (A : Type) : Type := World -> (Thrown + A) * World.

Definition ret {A} (a : A) : M A := fun w => (inr a, w).
Definition throw {A} (e : Thrown) : M A := fun w => (inl e, w).
Definition mbind {A B} (m : M A) (f : A -> M B) : M B :=
  fun w => match m w with
           | (inl e, w') => (inl e, w')
           | (inr a, w') => f a w'
           end.
(** [try { m } catch (e) { h e }] *)
Definition try_catch {A} (m : M A) (h : Thrown -> M A) : M A :=
  fun w => match m w with
           | (inl e, w') => h e w'
           | (inr a, w') => (inr a, w')
           end.
Definition get : M World := fun w => (inr w, w).
Definition modify (f : World -> World) : M unit := fun w => (inr (), f w).
Definition effect (e : Effect) : M unit :=
  modify (fun w => set_trace (trace w ++ [e]) w).
Definition when (b : bool) (m : M unit) : M unit := if b then m else ret ().
(** [xs.forEach(f)] *)
Fixpoint forEach {A} (xs : list A) (f : A -> M unit) : M unit :=
  match xs with
  | [] => ret ()
  | x :: rest => mbind (f x) (fun _ => forEach rest f)
  end.

Declare Scope M_scope.
Delimit Scope M_scope with M.
Notation "x <- m ;; k" := (mbind m (fun x => k))
  (at level 20, m at level 99, k at level 200, only parsing) : M_scope.
Notation "m ;;; k" := (mbind m (fun _ => k))
  (at level 100, k at level 200, only parsing, right associativity) : M_scope.
Local Open Scope M_scope.

(** How far an [async] call got: to its end, or to an [await]. *)
Inductive Progress : Type := completed | awaiting.

(** A new platform object or task number. *)
Definition new_id : M nat :=
  fun w => (inr (fresh w), set_fresh (S (fresh w)) w).

(** Suspend task [tid] at an [await] of [op]. *)
Definition await (tid : nat) (op : Operation) (t : Task) : M Progress :=
  effect (Awaiting tid op) ;;;
  modify (fun w => set_pending (<[tid := t]> (pending w)) w) ;;;
  ret awaiting.

(** [setTimeout(callback, delay)]: the timer goes behind the timers
    that are due no later. *)
Fixpoint insert_timer (t : Timer) (ts : list Timer) : list Timer :=
  match ts with
  | [] => [t]
  | t' :: rest => if (due t' <=? due t)%nat then t' :: insert_timer t rest else t :: ts
  end.

Definition setTimeout (a : TimerAction) (delay : nat) : M unit :=
  modify (fun w => set_timers (insert_timer {| due := clock w + delay; action := a |} (timers w)) w).

(** What happens to the client: a call of one of its public methods, an
    event of a platform object, the settling of an awaited promise, or
    the passing of time. *)
Inductive Event : Type :=
| call_setTechnicianInfo (id name : string)
| call_connect
| call_start
| call_disconnect
| call_stop
| dc_onopen (channel : nat)
| dc_onclose (channel : nat)
| dc_onerror (channel : nat)
| dc_onmessage (channel : nat) (m : Inbound)
| pc_ontrack (pc stream : nat)
| pc_oniceconnectionstatechange (pc : nat) (st : IceState)
| ctx_onstatechange (ctx : nat) (st : AudioState)
| settle (task : nat) (s : Settlement)
| tick (ms : nat).

Section Client.
Context `{Platform}.

(** [this.dataChannel.send(...)] on channel [c]: an
    [InvalidStateError] unless the channel is open. *)
Definition send (c : nat) (m : ClientEvent) : M unit :=
  w <- get ;;
  if decide (channels w !! c = Some open)
  then effect (Sent c m)
  else throw (JsError InvalidStateError).

(** [v.p] for an argument object [v]. *)
Definition prop (v : json) (p : string) : M jsval :=
  match v with
  | JNull => throw (JsError (TypeError_null p))
  | JObj fields => ret (assoc p fields)
  | _ => ret None
  end.

(** [v.p] for a value that may be [undefined]. *)
Definition prop_of (v : jsval) (p : string) : M jsval :=
  match v with
  | None => throw (JsError (TypeError_null p))
  | Some v => prop v p
  end.

(** **** [cleanup], [handleDisconnect] *)

(** [channel.close()] *)
Definition close_channel (c : nat) : M unit :=
  effect (ClosedChannel c) ;;;
  modify (fun w =>
    match channels w !! c with
    | Some closed | None => w
    | Some _ => set_channels (<[c := closing]> (channels w)) w
    end).

(** [peer.close()]: a closed peer fires no further events. *)
Definition close_peer (p : nat) : M unit :=
  effect (ClosedPeer p) ;;;
  modify (fun w => set_watched (watched w ∖ {[p]}) w).

Definition close_context (a : nat) : M unit :=
  w <- get ;;
  if decide (contexts w !! a = Some audio_closed) then ret ()
  else effect (ClosedContext a) ;;;
       modify (fun w => set_contexts (<[a := audio_closed]> (contexts w)) w).

Definition cleanup : M unit :=
  w <- get ;;
  from_option (fun ms => effect (StoppedTracks ms)) (ret ()) (mediaStream w) ;;;
  from_option close_channel (ret ()) (dataChannel w) ;;;
  from_option close_peer (ret ()) (peerConnection w) ;;;
  modify (set_srcObject None) ;;;
  from_option close_context (ret ()) (audioContext w) ;;;
  modify (set_mediaStream None) ;;;
  modify (set_dataChannel None) ;;;
  modify (set_peerConnection None) ;;;
  modify (set_audioContext None) ;;;
  modify (set_isActive false) ;;;
  modify (set_hasActiveResponse false).

Definition handleDisconnect : M unit :=
  modify (set_isActive false) ;;;
  cleanup ;;;
  effect (Emitted ev_disconnected).

Definition disconnect : M unit := handleDisconnect.
Definition stop : M unit := disconnect.

Definition setTechnicianInfo (id name : string) : M unit :=
  modify (set_technicianId (Some id)) ;;;
  modify (set_technicianName (Some name)).

(** **** [handleFunctionCall] *)

(** [this.functionCallArgs ? JSON.parse(this.functionCallArgs) : {}] *)
Definition parse_arguments (functionCallArgs : string) : M json :=
  if truthy_string functionCallArgs
  then match JSON_parse functionCallArgs with
       | inl syntax_error => throw (JsError syntax_error)
       | inr args => ret args
       end
  else ret (JObj []).

Definition unknown_function (functionName : string) : Thrown :=
  JsError ("Unknown function: " +:+ functionName).

(** The [switch (functionName)]: the arguments are read from [args]
    left to right and the entry of [functionMap] is called, which
    runs it up to its first [await]. *)
Definition call_handler (functionName : string) (args : json) : M Prog :=
  if String.eqb functionName "get_technician_status" then
    technician_id <- prop args "technician_id" ;;
    ret (api.getTechnicianStatus technician_id)
  else if String.eqb functionName "get_work_orders" then
    technician_id <- prop args "technician_id" ;;
    ret (api.getTechnicianWorkOrders technician_id)
  else if String.eqb functionName "start_travel" then
    work_order_id <- prop args "work_order_id" ;;
    technician_id <- prop args "technician_id" ;;
    ret (start_travel work_order_id technician_id)
  else if String.eqb functionName "end_travel" then
    work_order_id <- prop args "work_order_id" ;;
    technician_id <- prop args "technician_id" ;;
    ret (end_travel work_order_id technician_id)
  else if String.eqb functionName "update_work_order_notes" then
    work_order_id <- prop args "work_order_id" ;;
    notes <- prop args "notes" ;;
    alert_office <- prop args "alert_office" ;;
    ret (update_work_order_notes work_order_id notes alert_office)
  else if String.eqb functionName "check_inventory" then
    truck_id <- prop args "truck_id" ;;
    ret (api.getTruckInventory truck_id)
  else if String.eqb functionName "update_inventory" then
    truck_id <- prop args "truck_id" ;;
    item_id <- prop args "item_id" ;;
    quantity <- prop args "quantity" ;;
    ret (api.updateTruckInventory truck_id item_id quantity)
  else if String.eqb functionName "create_manual_notification" then
    ret (api.createManualNotification (Some args))
  else if String.eqb functionName "start_job" then
    work_order_id <- prop args "work_order_id" ;;
    technician_id <- prop args "technician_id" ;;
    ret (start_job work_order_id technician_id)
  else if String.eqb functionName "end_job" then
    work_order_id <- prop args "work_order_id" ;;
    technician_id <- prop args "technician_id" ;;
    notes <- prop args "notes" ;;
    ret (end_job work_order_id technician_id notes)
  else throw (unknown_function functionName).

(** The channel the send-sites of [handleFunctionCall] write to:
    [this.dataChannel && this.dataChannel.readyState === 'open']. *)
Definition live_channel (w : World) : option nat :=
  match dataChannel w with
  | Some c => if decide (channels w !! c = Some open) then Some c else None
  | None => None
  end.

(** [this.functionCall.call_id] *)
Definition this_call_id : M (option string) :=
  w <- get ;;
  match functionCall w with
  | Some fc => ret (call_id fc)
  | None => throw (JsError (TypeError_null "call_id"))
  end.

Definition error_text (functionName : string) (e : Thrown) : string :=
  "Error executing " +:+ functionName +:+ ": " +:+ error_message e.

(** The [catch] block. *)
Definition on_error (functionName : string) (e : Thrown) : M unit :=
  w <- get ;;
  match live_channel w with
  | Some c =>
      cid <- this_call_id ;;
      send c (function_call_output cid (output_error (error_text functionName e)))
  | None => ret ()
  end.

(** The [try] block once the handler has returned [result]: the
    output is sent and the call waits 500 ms. *)
Definition on_result (tid : nat) (functionName : string) (caller : Caller)
    (result : jsval) : M Progress :=
  w <- get ;;
  match live_channel w with
  | Some c =>
      cid <- this_call_id ;;
      send c (function_call_output cid (output_result result)) ;;;
      setTimeout (resolve_grace tid) 500 ;;;
      modify (fun w => set_pending (<[tid := in_grace functionName caller]> (pending w)) w) ;;;
      ret awaiting
  | None => ret completed
  end.

(** The [try] block from [await functionMap[functionName](...)] on,
    the handler standing at [p]. *)
Definition run_handler (tid : nat) (functionName : string) (caller : Caller)
    (p : Prog) : M Progress :=
  match p with
  | Await r k => await tid (request r) (in_handler functionName k caller)
  | Return result => on_result tid functionName caller result
  | Raise e => throw e
  end.

(** [// Reset function call state] *)
Definition reset_call : M unit :=
  modify (set_functionCall None) ;;;
  modify (set_functionCallArgs "") ;;;
  modify (set_functionCallArgumentsBuffer "").

(** [try { body } catch (error) { ... }] and the reset after it,
    which a call suspended in [body] reaches only when resumed. *)
Definition guarded (functionName : string) (body : M Progress) : M Progress :=
  p <- try_catch body (fun e => on_error functionName e ;;; ret completed) ;;
  match p with
  | awaiting => ret awaiting
  | completed => reset_call ;;; ret completed
  end.

(** The [try] block once the arguments are parsed.
    ([functionName in functionMap] also holds for the names
    inherited from [Object.prototype]; the [switch] answers those
    with the same error as the test would.) *)
Definition dispatch (functionName : string) (caller : Caller) (args : json) : M Progress :=
  (if bool_decide (functionName ∈ functionMap_keys) then ret ()
   else throw (unknown_function functionName)) ;;;
  p <- call_handler functionName args ;;
  tid <- new_id ;;
  run_handler tid functionName caller p.

Definition handleFunctionCall (caller : Caller) : M Progress :=
  w <- get ;;
  match functionCall w, dataChannel w with
  | Some fc, Some _ =>
      let functionName := name fc in
      guarded functionName
        (args <- parse_arguments (functionCallArgs w) ;;
         dispatch functionName caller args)
  | _, _ => ret completed
  end.

(** What becomes of a rejection of [handleFunctionCall]: the
    [catch] of [handleWebSocketMessage] emits it as a session error;
    [handleResponseContent] leaves it unhandled. *)
Definition deliver (caller : Caller) (m : M Progress) : M unit :=
  try_catch (m ;;; ret ())
    (fun e => match caller with
              | by_message => effect (Emitted (ev_error e))
              | by_content => effect (Unhandled e)
              end).

(** The handler's request has settled. *)
Definition resume_handler (tid : nat) (functionName : string) (k : Settled -> Prog)
    (caller : Caller) (s : Settled) : M unit :=
  deliver caller (guarded functionName (run_handler tid functionName caller (k s))).

(** The 500 ms have passed. *)
Definition resume_grace (caller : Caller) : M unit :=
  deliver caller (reset_call ;;; ret completed).

(** **** [playAudioDelta] *)

Definition new_context : M unit :=
  a <- new_id ;;
  modify (fun w => set_contexts (<[a := autoplay w]> (contexts w)) w) ;;;
  modify (set_audioContext (Some a)).

(** [ensureAudioContext] up to its [await]: the context whose
    [resume()] it awaits, if any. *)
Definition ensureAudioContext : M (option nat) :=
  w <- get ;;
  match audioContext w with
  | Some a => if decide (contexts w !! a = Some audio_closed) then new_context else ret ()
  | None => new_context
  end ;;;
  w <- get ;;
  match audioContext w with
  | Some a => if decide (contexts w !! a = Some suspended) then ret (Some a) else ret None
  | None => ret None
  end.

(** [playAudioDelta] after [await this.ensureAudioContext()]. *)
Definition decode (tid : nat) (base64Audio : string) : M unit :=
  try_catch
    (w <- get ;;
     match audioContext w with
     | None => ret ()
     | Some a =>
         match atob base64Audio with
         | None => throw JsNonError
         | Some audioData =>
             await tid (decodeAudioData a audioData) (in_decode base64Audio) ;;; ret ()
         end
     end)
    (fun _ => ret ()).

(** [playAudioDelta] after [await decodeAudioData(...)]. *)
Definition play (base64Audio : string) (s : Settlement) : M unit :=
  try_catch
    (match s with
     | rejected e => throw e
     | _ =>
         w <- get ;;
         match audioContext w with
         | None => throw (JsError (TypeError_null "createBufferSource"))
         | Some a => effect (Started a base64Audio)
         end
     end)
    (fun _ => ret ()).

(** [playAudioDelta] up to its first [await]; when no [resume()] is
    awaited, the rest is queued as a microtask, which is returned. *)
Definition playAudioDelta (base64Audio : string) : M (list Microtask) :=
  tid <- new_id ;;
  r <- ensureAudioContext ;;
  match r with
  | Some a => await tid (resume a) (in_resume a base64Audio) ;;; ret []
  | None => ret [decode_later tid base64Audio]
  end.

Definition run_microtask (t : Microtask) : M unit :=
  match t with
  | decode_later tid base64Audio => decode tid base64Audio
  end.

(** **** [handleWebSocketMessage], [handleResponseContent] *)

Fixpoint handleResponseContent (content : list ContentItem) : M (list Microtask) :=
  match content with
  | [] => ret []
  | item :: rest =>
      now <- match item with
             | content_text text => effect (Emitted (ev_text text)) ;;; ret []
             | content_audio audio => playAudioDelta audio
             | content_function_call name arguments =>
                 modify (set_functionCall
                           (Some {| name := name; arguments := arguments; call_id := None |})) ;;;
                 modify (set_functionCallArgs arguments) ;;;
                 deliver by_content (handleFunctionCall by_content) ;;;
                 ret []
             | content_other _ => ret []
             end ;;
      later <- handleResponseContent rest ;;
      ret (now ++ later)%list
  end.

(** The assignments of the [arguments.done] case. *)
Definition arguments_done (name : string) (call_id : option string) : M unit :=
  w <- get ;;
  modify (set_functionCall
            (Some {| name := name; arguments := functionCallArgumentsBuffer w;
                     call_id := call_id |})) ;;;
  modify (set_functionCallArgs (functionCallArgumentsBuffer w)) ;;;
  modify (set_functionCallArgumentsBuffer "").

Definition rate_limit_cooldown : nat := 5000.

(** The [response.done] case, before the [emit]. *)
Definition response_completed (status reason error_code : option string) : M unit :=
  if bool_decide (status = Some "cancelled") && bool_decide (reason = Some "turn_detected")
  then modify (set_hasActiveResponse false)
  else if bool_decide (status = Some "failed")
          && bool_decide (error_code = Some "rate_limit_exceeded")
  then setTimeout clear_active_response rate_limit_cooldown
  else modify (set_hasActiveResponse false).

(** [message.error?.message || 'Unknown error'] *)
Definition server_error_text (message : option string) : string :=
  match message with
  | Some text => if truthy_string text then text else "Unknown error"
  | None => "Unknown error"
  end.

Definition on_event (ev : ServerEvent) : M (list Microtask) :=
  match ev with
  | session_created | session_updated => ret []
  | error message =>
      if from_option (fun text => includes text "already has an active response")
           false message
      then ret []
      else effect (Emitted (ev_error (JsError (server_error_text message)))) ;;; ret []
  | input_audio_buffer_speech_started => effect (Emitted ev_speech_started) ;;; ret []
  | input_audio_buffer_speech_stopped => effect (Emitted ev_speech_stopped) ;;; ret []
  | input_audio_buffer_committed =>
      w <- get ;;
      match dataChannel w with
      | Some c =>
          if hasActiveResponse w then ret []
          else modify (set_hasActiveResponse true) ;;; send c response_create ;;; ret []
      | None => ret []
      end
  | response_created => modify (set_hasActiveResponse true) ;;; ret []
  | response_function_call_started => modify (set_functionCallArgumentsBuffer "") ;;; ret []
  | response_function_call_arguments_delta delta =>
      modify (fun w => set_functionCallArgumentsBuffer
                         (functionCallArgumentsBuffer w +:+ delta) w) ;;;
      ret []
  | response_function_call_arguments_done name call_id =>
      arguments_done name call_id ;;;
      handleFunctionCall by_message ;;;
      ret []
  | response_output_item_added content =>
      match content with
      | Some items => handleResponseContent items
      | None => ret []
      end
  | response_done status reason error_code =>
      response_completed status reason error_code ;;;
      effect (Emitted ev_response_done) ;;;
      ret []
  | unknown_type _ => ret []
  end.

(** The body runs inside [try]; the microtasks it left behind run
    when it has returned. *)
Definition handleWebSocketMessage (m : Inbound) : M unit :=
  microtasks <- try_catch
    (match m with
     | unparseable syntax_error => throw (JsError syntax_error)
     | parsed ev => on_event ev
     end)
    (fun e => effect (Emitted (ev_error e)) ;;; ret []) ;;
  forEach microtasks run_microtask.

(** **** [connect], [start] *)

(** [this.peerConnection.m(...)]: the peer, or the [TypeError] of
    calling [m] on [null]. *)
Definition this_peerConnection (m : string) : M nat :=
  w <- get ;;
  match peerConnection w with
  | Some p => ret p
  | None => throw (JsError (TypeError_null m))
  end.

(** [connect] from one [await] to the next, inside its [try];
    [None] for a settlement the awaited operation cannot produce. *)
Definition connect_step (tid : nat) (via_start : bool) (stage : ConnectStage)
    (s : Settlement) : option (M Progress) :=
  let suspend op stage' := await tid op (in_connect stage' via_start) in
  match stage, s with
  | _, rejected e => Some (throw e)
  | await_token, resolved_response ok =>
      Some (if ok then suspend read_json await_token_json
            else suspend read_text await_token_text)
  | await_token_text, resolved_text errorText =>
      Some (throw (JsError ("Failed to get ephemeral token: " +:+ errorText)))
  | await_token_json, resolved_json tokenJson =>
      Some (prop_of tokenJson "token" ;;;
            p <- new_id ;;
            modify (set_peerConnection (Some p)) ;;;
            modify (fun w => set_ice (<[p := ice_new]> (ice w)) w) ;;;
            effect (CreatedPeer p) ;;;
            suspend getUserMedia await_media)
  | await_media, resolved_stream stream tracks =>
      Some (modify (set_mediaStream (Some stream)) ;;;
            forEach tracks (fun track =>
              w <- get ;;
              from_option (fun p => effect (AddedTrack p track)) (ret ())
                (peerConnection w)) ;;;
            p <- this_peerConnection "createDataChannel" ;;
            c <- new_id ;;
            modify (fun w => set_channels (<[c := connecting]> (channels w)) w) ;;;
            modify (set_dataChannel (Some c)) ;;;
            effect (CreatedChannel p c) ;;;
            suspend (createOffer p) await_offer)
  | await_offer, resolved_json offer =>
      Some (p <- this_peerConnection "setLocalDescription" ;;
            suspend (setLocalDescription p offer) (await_local offer))
  | await_local offer, resolved =>
      Some (sdp <- prop_of offer "sdp" ;;
            suspend (fetch_connect sdp) await_answer)
  | await_answer, resolved_response _ =>
      Some (suspend read_json await_answer_json)
  | await_answer_json, resolved_json responseData =>
      Some (sdp <- prop_of responseData "sdp" ;;
            p <- this_peerConnection "setRemoteDescription" ;;
            suspend (setRemoteDescription p sdp) await_remote)
  | await_remote, resolved =>
      Some (p <- this_peerConnection "oniceconnectionstatechange" ;;
            modify (fun w => set_watched ({[p]} ∪ watched w) w) ;;;
            modify (set_isActive true) ;;;
            effect (Emitted ev_connected) ;;;
            ret completed)
  | _, _ => None
  end.

(** The [catch] of [connect], then that of [start] when the call
    came through it; the rejection goes to the caller. *)
Definition connect_failed (via_start : bool) (e : Thrown) : M Progress :=
  cleanup ;;;
  when via_start cleanup ;;;
  effect (Failed e) ;;;
  ret completed.

Definition connect (via_start : bool) : M Progress :=
  w <- get ;;
  match peerConnection w with
  | Some _ => effect (Logged "WebRTC connection already exists") ;;; ret completed
  | None =>
      tid <- new_id ;;
      await tid fetch_token (in_connect await_token via_start)
  end.

Definition start : M Progress :=
  w <- get ;;
  if isActive w then ret completed else connect true.

(** **** The callbacks [connect] installs *)

Definition initializeSession : M unit :=
  w <- get ;;
  match dataChannel w with
  | None => throw (JsError "No data channel available")
  | Some c =>
      if decide (channels w !! c = Some open) then
        match technicianId w, technicianName w with
        | Some id, Some name =>
            if truthy_string id && truthy_string name
            then send c (session_update name id)
            else throw (JsError "Technician information not set")
        | _, _ => throw (JsError "Technician information not set")
        end
      else throw (JsError "Data channel is not open")
  end.

(** [dataChannel.onopen] *)
Definition onopen : M unit :=
  effect (Emitted ev_datachannel_open) ;;;
  try_catch
    (initializeSession ;;;
     w <- get ;;
     match dataChannel w, technicianId w with
     | Some c, Some id => when (truthy_string id) (send c response_create)
     | _, _ => ret ()
     end)
    (fun e => cleanup ;;; effect (Emitted (ev_error e))).

(** [peerConnection.ontrack] *)
Definition ontrack (stream : nat) : M unit :=
  modify (set_srcObject (Some stream)) ;;;
  effect (Played stream).

(** [peerConnection.oniceconnectionstatechange]: it reads the state
    of the peer that is current when it runs. *)
Definition oniceconnectionstatechange : M unit :=
  w <- get ;;
  match peerConnection w with
  | Some p => when (bool_decide (ice w !! p = Some ice_disconnected)) handleDisconnect
  | None => ret ()
  end.

(** **** The event loop *)

(** The promise task [tid] awaits has settled. *)
Definition resume_task (tid : nat) (t : Task) (s : Settlement) : option (M unit) :=
  match t with
  | in_connect stage via_start =>
      body ← connect_step tid via_start stage s;
      Some (try_catch body (connect_failed via_start) ;;; ret ())
  | in_handler functionName k caller =>
      match s with
      | resolved_json data => Some (resume_handler tid functionName k caller (Fulfilled data))
      | rejected e => Some (resume_handler tid functionName k caller (Rejected e))
      | _ => None
      end
  | in_grace _ _ => None
  | in_resume a base64Audio =>
      match s with
      | resolved =>
          Some (modify (fun w => set_contexts (<[a := running]> (contexts w)) w) ;;;
                decode tid base64Audio)
      | rejected _ => Some (ret ())
      | _ => None
      end
  | in_decode base64Audio =>
      match s with
      | resolved | rejected _ => Some (play base64Audio s)
      | _ => None
      end
  end.

Definition settle_task (tid : nat) (s : Settlement) : M unit :=
  w <- get ;;
  match pending w !! tid with
  | Some t =>
      match resume_task tid t s with
      | Some continuation =>
          modify (fun w => set_pending (delete tid (pending w)) w) ;;;
          continuation
      | None => ret ()
      end
  | None => ret ()
  end.

(** A timer callback. *)
Definition fire (t : Timer) : M unit :=
  match action t with
  | clear_active_response => modify (set_hasActiveResponse false)
  | resolve_grace tid =>
      w <- get ;;
      match pending w !! tid with
      | Some (in_grace _ caller) =>
          modify (fun w => set_pending (delete tid (pending w)) w) ;;;
          resume_grace caller
      | _ => ret ()
      end
  end.

(** [ms] milliseconds pass: the timers that fall due fire in order. *)
Definition advance (ms : nat) : M unit :=
  w <- get ;;
  let now := clock w + ms in
  modify (set_clock now) ;;;
  modify (set_timers (filter (fun t => (now < due t)%nat) (timers w))) ;;;
  forEach (filter (fun t => (due t ≤ now)%nat) (timers w)) fire.

Definition handle (e : Event) : M unit :=
  match e with
  | call_setTechnicianInfo id name => setTechnicianInfo id name
  | call_connect => connect false ;;; ret ()
  | call_start => start ;;; ret ()
  | call_disconnect => disconnect
  | call_stop => stop
  | dc_onopen c =>
      w <- get ;;
      if decide (channels w !! c = Some connecting) then
        modify (fun w => set_channels (<[c := open]> (channels w)) w) ;;;
        onopen
      else ret ()
  | dc_onclose c =>
      w <- get ;;
      match channels w !! c with
      | Some closed | None => ret ()
      | Some _ =>
          modify (fun w => set_channels (<[c := closed]> (channels w)) w) ;;;
          effect (Emitted ev_datachannel_close)
      end
  | dc_onerror c => effect (Emitted ev_datachannel_error)
  | dc_onmessage c m =>
      w <- get ;;
      if decide (channels w !! c = Some open) then handleWebSocketMessage m else ret ()
  | pc_ontrack p stream => ontrack stream
  | pc_oniceconnectionstatechange p st =>
      w <- get ;;
      if decide (p ∈ watched w) then
        modify (fun w => set_ice (<[p := st]> (ice w)) w) ;;;
        oniceconnectionstatechange
      else ret ()
  | ctx_onstatechange a st =>
      modify (fun w =>
        match contexts w !! a with
        | Some audio_closed | None => w
        | Some _ => set_contexts (<[a := st]> (contexts w)) w
        end)
  | settle tid s => settle_task tid s
  | tick ms => advance ms
  end.

(** One turn of the event loop.  An exception no callback catches
    is reported by the platform. *)
Definition step (e : Event) (w : World) : World :=
  match handle e w with
  | (inr _, w') => w'
  | (inl err, w') => set_trace (trace w' ++ [Unhandled err]) w'
  end.

Definition run (es : list Event) (w : World) : World := foldl (flip step) w es.

End Client.

(** *** Reading a trace *)

Definition sent_on (c : nat) (tr : list Effect) : list ClientEvent :=
  omap (fun e => match e with
                 | Sent c' m => if decide (c' = c) then Some m else None
                 | _ => None
                 end) tr.

Definition sent (tr : list Effect) : list (nat * ClientEvent) :=
  omap (fun e => match e with Sent c m => Some (c, m) | _ => None end) tr.

Definition requests (tr : list Effect) : list Request :=
  omap (fun e => match e with Awaiting _ (request r) => Some r | _ => None end) tr.

Definition started (tr : list Effect) : list string :=
  omap (fun e => match e with Started _ audio => Some audio | _ => None end) tr.

Definition session_errors (tr : list Effect) : list Thrown :=
  omap (fun e => match e with Emitted (ev_error err) => Some err | _ => None end) tr.

End VoiceAgent.

(** ** The earlier revision of [handleFunctionCall]

    [services/voiceAgent.ts] keeps an earlier revision of the class,
    over the earlier [functionMap] of [voiceAgentTools.ts].  Its
    [handleFunctionCall] is embedded here on the same [World]; nobody
    awaits it, so what it throws stays unhandled. *)

Module Legacy.
Import Tools VoiceAgent.
Local Open Scope M_scope.

Definition start_travel (work_order_id technician_id : jsval) : Prog :=
  api.updateWorkOrderNotes (parseInt work_order_id)
    (lit "Started traveling to work order location") jtrue.

Definition end_travel (work_order_id technician_id : jsval) : Prog :=
  api.updateWorkOrderNotes (parseInt work_order_id)
    (lit "Arrived at work order location") jtrue.

Definition functionMap_keys : list string :=
  ["get_work_orders"; "get_technician_status"; "start_travel"; "end_travel";
   "update_work_order_notes"; "check_inventory"; "update_inventory";
   "create_manual_notification"].

Section Client.
Context `{Platform}.

Definition call_handler (functionName : string) (args : json) : M Prog :=
  if String.eqb functionName "get_work_orders" then
    technician_id <- prop args "technician_id" ;;
    ret (api.getTechnicianWorkOrders technician_id)
  else if String.eqb functionName "start_travel" then
    work_order_id <- prop args "work_order_id" ;;
    technician_id <- prop args "technician_id" ;;
    ret (start_travel work_order_id technician_id)
  else if String.eqb functionName "end_travel" then
    work_order_id <- prop args "work_order_id" ;;
    technician_id <- prop args "technician_id" ;;
    ret (end_travel work_order_id technician_id)
  else if String.eqb functionName "update_work_order_notes" then
    work_order_id <- prop args "work_order_id" ;;
    notes <- prop args "notes" ;;
    alert_office <- prop args "alert_office" ;;
    ret (update_work_order_notes work_order_id notes alert_office)
  else if String.eqb functionName "check_inventory" then
    truck_id <- prop args "truck_id" ;;
    ret (api.getTruckInventory truck_id)
  else if String.eqb functionName "update_inventory" then
    truck_id <- prop args "truck_id" ;;
    item_id <- prop args "item_id" ;;
    quantity <- prop args "quantity" ;;
    ret (api.updateTruckInventory truck_id item_id quantity)
  else if String.eqb functionName "create_manual_notification" then
    ret (api.createManualNotification (Some args))
  else throw (unknown_function functionName).

(** [this.dataChannel.send(...)], the field read when the call is made. *)
Definition this_dataChannel_send (m : ClientEvent) : M unit :=
  w <- get ;;
  match dataChannel w with
  | Some c => send c m
  | None => throw (JsError (TypeError_null "send"))
  end.

(** The output goes out and the next response is requested at once. *)
Definition on_result (result : jsval) : M unit :=
  this_dataChannel_send (system_function_call_output (output_result result)) ;;;
  this_dataChannel_send response_create.

Definition on_error (functionName : string) (e : Thrown) : M unit :=
  w <- get ;;
  match dataChannel w with
  | Some c =>
      send c (system_function_call_output (output_error (error_text functionName e)))
  | None => ret ()
  end.

Definition run_handler (tid : nat) (functionName : string) (p : Prog) : M Progress :=
  match p with
  | Await r k => await tid (request r) (in_handler functionName k by_content)
  | Return result => on_result result ;;; ret completed
  | Raise e => throw e
  end.

Definition reset_call : M unit :=
  modify (set_functionCall None) ;;;
  modify (set_functionCallArgs "").

Definition guarded (functionName : string) (body : M Progress) : M Progress :=
  p <- try_catch body (fun e => on_error functionName e ;;; ret completed) ;;
  match p with
  | awaiting => ret awaiting
  | completed => reset_call ;;; ret completed
  end.

Definition dispatch (functionName : string) (args : json) : M Progress :=
  (if bool_decide (functionName ∈ functionMap_keys) then ret ()
   else throw (unknown_function functionName)) ;;;
  p <- call_handler functionName args ;;
  tid <- new_id ;;
  run_handler tid functionName p.

Definition handleFunctionCall : M Progress :=
  w <- get ;;
  match functionCall w, dataChannel w with
  | Some fc, Some _ =>
      let functionName := name fc in
      guarded functionName
        (args <- parse_arguments (functionCallArgs w) ;;
         dispatch functionName args)
  | _, _ => ret completed
  end.

(** The handler's request has settled. *)
Definition resume_handler (tid : nat) (functionName : string) (k : Settled -> Prog)
    (s : Settled) : M unit :=
  try_catch (guarded functionName (run_handler tid functionName (k s)) ;;; ret ())
    (fun e => effect (Unhandled e)).

End Client.
End Legacy.

(** ** Vocabulary of the statements *)

Import Workflow Tools VoiceAgent.

(** The concatenation of argument fragments in arrival order. *)
Definition join (fragments : list string) : string := foldr String.append "" fragments.

(** The [case] labels of the [switch] of [handleFunctionCall]. *)
Definition switch_names : list string :=
  ["get_technician_status"; "get_work_orders"; "start_travel"; "end_travel";
   "update_work_order_notes"; "check_inventory"; "update_inventory";
   "create_manual_notification"; "start_job"; "end_job"].

Definition is_clear (a : TimerAction) : bool :=
  match a with
  | clear_active_response => true
  | resolve_grace _ => false
  end.

Definition delta_event (c : nat) (delta : string) : Event :=
  dc_onmessage c (parsed (response_function_call_arguments_delta delta)).
Definition started_event (c : nat) : Event :=
  dc_onmessage c (parsed response_function_call_started).
Definition done_event (c : nat) (name : string) (call_id : option string) : Event :=
  dc_onmessage c (parsed (response_function_call_arguments_done name call_id)).
Definition response_done_event (c : nat) (status reason error_code : option string) : Event :=
  dc_onmessage c (parsed (response_done status reason error_code)).

(** The worlds the client can be in. *)
Inductive reachable `{Platform} : World -> Prop :=
| reachable_init (autoplay : AudioState) : reachable (init autoplay)
| reachable_step (e : Event) (w : World) : reachable w -> reachable (step e w).

(** [m] keeps the invariant [I], whether it completes or throws. *)
Definition preserves {A} (I : World -> Prop) (m : M A) : Prop :=
  forall w, I w -> I (m w).2.

(** An active session has its peer connection. *)
Definition active_has_peer (w : World) : Prop :=
  isActive w = true -> is_Some (peerConnection w).

(** Since the trace was [base], no [response.create] has been sent. *)
Definition no_response_create_since (base : list Effect) (w : World) : Prop :=
  exists new, trace w = (base ++ new)%list /\
              Forall (fun e => forall c, e <> Sent c response_create) new.

(** The two events behind which the client asks for a response: the
    channel has opened, and the input buffer has been committed. *)
Definition requests_a_response (e : Event) : bool :=
  match e with
  | dc_onopen _ => true
  | dc_onmessage _ (parsed input_audio_buffer_committed) => true
  | _ => false
  end.

(** The channels are numbered below [fresh], and [dataChannel] is one
    of them. *)
Definition channels_known (w : World) : Prop :=
  (forall c, is_Some (channels w !! c) -> c < fresh w) /\
  (forall c, dataChannel w = Some c -> is_Some (channels w !! c)).

(** Channel [c] has been closed by the client, and what has been sent
    on it is [base]. *)
Definition torn_down (c : nat) (base : list ClientEvent) (w : World) : Prop :=
  (channels w !! c = Some closing \/ channels w !! c = Some closed) /\
  c < fresh w /\
  sent_on c (trace w) = base.

(** The call slot as [handleFunctionCall] leaves it. *)
Definition call_is_reset (w : World) : Prop :=
  functionCall w = None /\ functionCallArgs w = "" /\ functionCallArgumentsBuffer w = "".

(** ** A session for the examples *)

Module Sample.
Import Tools VoiceAgent.

(** The double quote. *)
Definition dq : string := String (Ascii.ascii_of_nat 34) "".
Definition quoted (s : string) : string := dq +:+ s +:+ dq.

(** The text [{"work_order_id":"7","technician_id":"3"}] in three
    fragments, and the object it denotes. *)
Definition travel_fragments : list string :=
  [ "{" +:+ quoted "work_order_id" +:+ ":";
    quoted "7" +:+ "," +:+ quoted "technician_id";
    ":" +:+ quoted "3" +:+ "}" ].
Definition travel_text : string := foldr String.append "" travel_fragments.
Definition travel_args : json :=
  JObj [("work_order_id", JStr "7"); ("technician_id", JStr "3")].

(** A [JSON.parse] that knows the texts the examples use and rejects
    every other text. *)
Definition parse (text : string) : string + json :=
  if String.eqb text travel_text then inr travel_args
  else if String.eqb text "{}" then inr (JObj [])
  else if String.eqb text "null" then inr JNull
  else inl "Unexpected token".

#[local] Instance browser : Platform := {|
  JSON_parse := parse;
  atob := Some;
  TypeError_null := fun p => "Cannot read properties of null (reading '" +:+ p +:+ "')";
  InvalidStateError := "RTCDataChannel.readyState is not 'open'";
|}.

Definition token_json : jsval := Some (JObj [("token", JStr "ek_1")]).
Definition offer : jsval := Some (JObj [("type", JStr "offer"); ("sdp", JStr "v=0 offer")]).
Definition answer : jsval := Some (JObj [("sdp", JStr "v=0 answer")]).

(** A connection that goes through: task 1 is the call of [connect],
    peer 2 and channel 3 are what it creates. *)
Definition handshake : list Event :=
  [ call_setTechnicianInfo "3" "Ana";
    call_connect;
    settle 1 (resolved_response true);
    settle 1 (resolved_json token_json);
    settle 1 (resolved_stream 100 ["audio"]);
    settle 1 (resolved_json offer);
    settle 1 resolved;
    settle 1 (resolved_response true);
    settle 1 (resolved_json answer);
    settle 1 resolved;
    dc_onopen 3 ].

Definition connected : World := run handshake (init running).

Definition message (ev : ServerEvent) : Event := dc_onmessage 3 (parsed ev).

(** The arguments of a call arrive in fragments. *)
Definition travel_deltas : list Event := map (delta_event 3) travel_fragments.

(** [start_travel] has been called and waits for its first request:
    task 4. *)
Definition travelling : World :=
  run (travel_deltas ++ [done_event 3 "start_travel" (Some "call_1")]) connected.

(** What a handler in flight does next. *)
Definition continuation_of (w : World) (tid : nat) : Settled -> Prog :=
  match pending w !! tid with
  | Some (in_handler _ k _) => k
  | _ => fun _ => Return None
  end.

(** Two audio chunks have arrived in one item and are being decoded:
    tasks 4 and 5. *)
Definition chunk_A : string := "QUFB".
Definition chunk_B : string := "QkJC".
Definition two_chunks : World :=
  run [message (response_output_item_added
                  (Some [content_audio chunk_A; content_audio chunk_B]))]
    connected.

(** The decode of the second chunk completes before that of the first. *)
Definition completion_order : list (nat * string) := [(5, chunk_B); (4, chunk_A)].

(** A response is active. *)
Definition responding : World := step (message response_created) connected.

(** The session is closed while [start_travel] is in flight and
    connects again: task 5 is the second call of [connect], peer 6 and
    channel 7 are what it creates. *)
Definition reconnection : list Event :=
  [ call_disconnect;
    call_connect;
    settle 5 (resolved_response true);
    settle 5 (resolved_json token_json);
    settle 5 (resolved_stream 100 ["audio"]);
    settle 5 (resolved_json offer);
    settle 5 resolved;
    settle 5 (resolved_response true);
    settle 5 (resolved_json answer);
    settle 5 resolved;
    dc_onopen 7 ].

Definition reconnected : World := run reconnection travelling.

End Sample.

(** * Properties *)

(** ** Strings and timers *)

Lemma append_nil_r (s : string) : s +:+ "" = s.
Proof.
  induction s as [|a s IH]; [reflexivity|].
  change (String a (s +:+ "") = String a s). by rewrite IH.
Qed.

Lemma append_assoc (s1 s2 s3 : string) : (s1 +:+ s2) +:+ s3 = s1 +:+ (s2 +:+ s3).
Proof.
  induction s1 as [|a s1 IH]; [reflexivity|].
  change (String a ((s1 +:+ s2) +:+ s3) = String a (s1 +:+ (s2 +:+ s3))). by rewrite IH.
Qed.

Lemma existsb_filter_insert_timer (f : Timer -> bool) (P : Timer -> Prop)
    `{!forall t, Decision (P t)} (t : Timer) (ts : list Timer) :
  existsb f (filter P (insert_timer t ts))
  = (bool_decide (P t) && f t) || existsb f (filter P ts).
Proof.
  induction ts as [|t' ts IH]; simpl.
  - rewrite filter_cons, filter_nil.
    case_decide; case_bool_decide; simpl; try done; by rewrite ?orb_false_r.
  - destruct (due t' <=? due t)%nat.
    + rewrite !filter_cons. case_decide; simpl; rewrite IH; try done.
      by rewrite !orb_assoc, (orb_comm (f t')).
    + rewrite (filter_cons _ t). case_decide; case_bool_decide; simpl; try done.
Qed.

Lemma existsb_clear_none (ts : list Timer) :
  Forall (fun t => action t ≠ clear_active_response) ts ->
  existsb (fun t => is_clear (action t)) ts = false.
Proof.
  induction 1 as [|t ts Ht _ IH]; [done|]. simpl. rewrite IH.
  by destruct (action t).
Qed.

(** ** The transition table (C1) *)

(** The documented validator accepts a pair exactly when it is a row of
    the table of section 4.4. *)
Lemma validateStateTransition_table (current target : WorkflowState) :
  validateStateTransition current target = true <-> table_edge current target.
Proof.
  split.
  - destruct current, target; vm_compute; intros Hv; try discriminate Hv; constructor.
  - destruct 1; reflexivity.
Qed.

Lemma validateStateTransition_rejects (current target : WorkflowState) :
  ~ table_edge current target -> validateStateTransition current target = false.
Proof.
  intros Hno. destruct (validateStateTransition current target) eqn:Hv; [|done].
  by apply validateStateTransition_table in Hv.
Qed.

Section Messages.
Context `{Platform}.

(** ** Single messages *)

Lemma send_open c m w :
  channels w !! c = Some open ->
  send c m w = (inr (), set_trace (trace w ++ [Sent c m]) w).
Proof.
  intros Hc. unfold send, mbind, get. simpl. by rewrite decide_True.
Qed.

Lemma step_delta c delta w :
  channels w !! c = Some open ->
  step (delta_event c delta) w
  = set_functionCallArgumentsBuffer (functionCallArgumentsBuffer w +:+ delta) w.
Proof.
  intros Hc. unfold step, delta_event, handle, mbind, get. simpl.
  by rewrite decide_True.
Qed.

Lemma step_started c w :
  channels w !! c = Some open ->
  step (started_event c) w = set_functionCallArgumentsBuffer "" w.
Proof.
  intros Hc. unfold step, started_event, handle, mbind, get. simpl.
  by rewrite decide_True.
Qed.

Lemma run_deltas c deltas : forall w,
  channels w !! c = Some open ->
  run (map (delta_event c) deltas) w
  = set_functionCallArgumentsBuffer (functionCallArgumentsBuffer w +:+ join deltas) w.
Proof.
  induction deltas as [|d deltas IH]; intros w Hc.
  - simpl. rewrite append_nil_r. by destruct w.
  - cbn [map run foldl flip]. rewrite step_delta by done.
    unfold run in IH. rewrite IH by done. simpl. by rewrite append_assoc.
Qed.

Lemma step_response_done c status reason error_code w :
  channels w !! c = Some open ->
  step (response_done_event c status reason error_code) w
  = let w' := (response_completed status reason error_code w).2 in
    set_trace (trace w' ++ [Emitted ev_response_done]) w'.
Proof.
  intros Hc. unfold step, response_done_event, handle, mbind at 1, get. simpl.
  rewrite decide_True by done.
  unfold handleWebSocketMessage, try_catch, mbind, on_event. simpl.
  unfold mbind, response_completed.
  repeat case_bool_decide; reflexivity.
Qed.

(** ** Timers *)

Lemma fire_flag (t : Timer) (w : World) :
  (fire t w).1 = inr () /\
  hasActiveResponse (fire t w).2
  = if is_clear (action t) then false else hasActiveResponse w.
Proof.
  unfold fire. destruct (action t) as [|tid]; simpl; [done|].
  unfold mbind, get; simpl.
  destruct (pending w !! tid) as [[| | | |]|]; simpl; done.
Qed.

Lemma forEach_fire_flag (ts : list Timer) : forall w,
  (forEach ts fire w).1 = inr () /\
  hasActiveResponse (forEach ts fire w).2
  = if existsb (fun t => is_clear (action t)) ts then false else hasActiveResponse w.
Proof.
  induction ts as [|t ts IH]; intros w; [done|].
  cbn [forEach]. unfold mbind.
  destruct (fire_flag t w) as [Hok Hflag].
  destruct (fire t w) as [[e|[]] w'] eqn:Hfire; simpl in *; [done|].
  destruct (IH w') as [IHok IHflag]. split; [done|].
  rewrite IHflag, Hflag. by destruct (is_clear (action t)), (existsb _ ts).
Qed.

Lemma step_tick (ms : nat) (w : World) :
  step (tick ms) w
  = (forEach (filter (fun t => due t ≤ clock w + ms)%nat (timers w)) fire
       (set_timers (filter (fun t => clock w + ms < due t)%nat (timers w))
          (set_clock (clock w + ms) w))).2.
Proof.
  unfold step, handle, advance, mbind, get, modify. simpl.
  match goal with |- context [forEach ?ts fire ?w'] =>
    destruct (forEach_fire_flag ts w') as [Hok _];
    destruct (forEach ts fire w') as [[e|[]] w'']; simpl in *; done end.
Qed.

(** ** Reassembly of the arguments (C4) *)


(** ** The rate-limit cooldown (C5) *)


End Messages.

Section Calls.
Context `{Platform}.

(** ** Dispatch *)

(** The [switch] reads the arguments and starts the handler; it does
    not change the session. *)
Lemma call_handler_pure (functionName : string) (args : json) (w : World) :
  (call_handler functionName args w).2 = w.
Proof.
  unfold call_handler. repeat case_match; destruct args; reflexivity.
Qed.

Lemma call_handler_unknown (functionName : string) (args : json) (w : World) :
  functionName ∉ switch_names ->
  call_handler functionName args w = (inl (unknown_function functionName), w).
Proof.
  intros Hout. unfold call_handler.
  repeat match goal with
         | |- context [String.eqb functionName ?s] =>
             destruct (String.eqb_spec functionName s) as [->|_];
             [exfalso; apply Hout; unfold switch_names; set_solver|]
         end.
  reflexivity.
Qed.

Lemma call_handler_empty (functionName : string) :
  functionName ∈ switch_names ->
  bool_decide (functionName ∈ functionMap_keys) = true /\
  exists r k, forall w, call_handler functionName (JObj []) w = (inr (Await r k), w).
Proof.
  intros Hin. unfold switch_names in Hin.
  repeat (apply elem_of_cons in Hin as [-> | Hin]); [.. | by apply elem_of_nil in Hin].
  all: split; [by vm_compute | eexists _, _; intros w; reflexivity].
Qed.

(** ** Empty arguments (C10) *)

(** C10.  When [arguments.done] arrives and no fragment has been
    buffered, the empty text is not given to [JSON.parse]: the
    arguments are the empty object, and for every name of the
    [switch] the handler is called with it; its first request goes
    out and nothing is sent on the control channel. *)
Theorem empty_arguments_are_the_empty_object (w : World) (c c' : nat)
    (name : string) (call_id : option string) :
  channels w !! c = Some open ->
  dataChannel w = Some c' ->
  functionCallArgumentsBuffer w = "" ->
  name ∈ switch_names ->
  (forall w', parse_arguments "" w' = (inr (JObj []), w')) /\
  exists r k,
    (forall w', call_handler name (JObj []) w' = (inr (Await r k), w')) /\
    step (done_event c name call_id) w
    = set_pending (<[fresh w := in_handler name k by_message]> (pending w))
        (set_trace (trace w ++ [Awaiting (fresh w) (request r)])
           (set_fresh (S (fresh w))
              (set_functionCallArgs ""
                 (set_functionCall
                    (Some {| VoiceAgent.name := name; arguments := ""; call_id := call_id |})
                    w)))).
Proof.
  intros Hc Hdc Hb Hin. split; [done|].
  destruct (call_handler_empty name Hin) as (Hkey & r & k & Hcall).
  exists r, k. split; [done|].
  unfold step, done_event, handle, mbind at 1, get. simpl.
  rewrite decide_True by done.
  unfold handleWebSocketMessage, try_catch at 1, mbind at 1. simpl.
  unfold mbind at 1. unfold arguments_done, mbind at 1 2 3, get, modify. simpl.
  rewrite Hb.
  unfold mbind at 1. unfold handleFunctionCall, mbind at 1, get. simpl. rewrite Hdc.
  unfold guarded, mbind at 1, try_catch at 1, mbind at 1. simpl.
  unfold dispatch, mbind at 1. rewrite Hkey. simpl.
  unfold mbind at 1. rewrite Hcall.
  unfold mbind, new_id, get, modify, await, effect, modify, ret. simpl.
  destruct w; simpl in *; subst. reflexivity.
Qed.

(** ** One buffer for every call (C2) *)


End Calls.

Section Completion.
Context `{Platform}.

Lemma run_cons (e : Event) (es : list Event) (w : World) :
  run (e :: es) w = run es (step e w).
Proof. reflexivity. Qed.

Lemma run_app (es1 es2 : list Event) (w : World) :
  run (es1 ++ es2) w = run es2 (run es1 w).
Proof. apply foldl_app. Qed.

(** ** Reading traces *)

Lemma sent_app (tr1 tr2 : list Effect) : sent (tr1 ++ tr2) = sent tr1 ++ sent tr2.
Proof. apply omap_app. Qed.

Lemma started_app (tr1 tr2 : list Effect) :
  started (tr1 ++ tr2) = started tr1 ++ started tr2.
Proof. apply omap_app. Qed.

(** ** Teardown *)

Lemma cleanup_result (w : World) :
  let w' := (cleanup w).2 in
  (cleanup w).1 = inr () /\
  dataChannel w' = None /\ peerConnection w' = None /\ mediaStream w' = None /\
  audioContext w' = None /\ isActive w' = false /\ hasActiveResponse w' = false /\
  pending w' = pending w /\ functionCall w' = functionCall w /\
  fresh w' = fresh w /\ sent (trace w') = sent (trace w).
Proof.
  unfold cleanup, close_channel, close_peer, close_context, mbind, get, modify,
    effect, modify, ret.
  destruct (mediaStream w), (dataChannel w), (peerConnection w), (audioContext w);
    simpl; repeat case_decide; simpl; repeat case_match; simpl;
    rewrite ?sent_app; simpl; rewrite ?app_nil_r; done.
Qed.

Lemma step_disconnect_eq (w : World) :
  step call_disconnect w
  = let w' := (cleanup (set_isActive false w)).2 in
    set_trace (trace w' ++ [Emitted ev_disconnected]) w'.
Proof.
  unfold step, handle, disconnect, handleDisconnect, mbind, modify, effect, modify.
  destruct (cleanup_result (set_isActive false w)) as [Hok _].
  destruct (cleanup (set_isActive false w)) as [[e|[]] w']; simpl in *; done.
Qed.

Lemma step_disconnect (w : World) :
  let w' := step call_disconnect w in
  dataChannel w' = None /\ live_channel w' = None /\ peerConnection w' = None /\
  isActive w' = false /\ pending w' = pending w /\ functionCall w' = functionCall w /\
  sent (trace w') = sent (trace w).
Proof.
  intros w'. subst w'. rewrite step_disconnect_eq.
  destruct (cleanup_result (set_isActive false w))
    as (_ & Hdc & Hpc & _ & _ & Hact & _ & Hpend & Hfc & _ & Hsent).
  cbv zeta. unfold live_channel. simpl. rewrite Hdc, sent_app, Hsent. simpl.
  by rewrite app_nil_r.
Qed.

(** ** A handler that finds no channel *)

Lemma resume_handler_without_channel tid functionName k caller s w :
  live_channel w = None ->
  sent (trace (resume_handler tid functionName k caller s w).2) = sent (trace w).
Proof.
  intros Hlive. unfold resume_handler, deliver, guarded, run_handler.
  destruct (k s) as [result|e|r k'].
  - unfold on_result, try_catch, mbind, get. simpl. rewrite Hlive. by destruct caller.
  - unfold on_error, try_catch, mbind, get, throw. simpl. rewrite Hlive. by destruct caller.
  - unfold try_catch, mbind, await, mbind, effect, modify. simpl.
    rewrite sent_app. simpl. by rewrite app_nil_r.
Qed.

Lemma settle_handler_without_channel tid functionName k caller s w :
  pending w !! tid = Some (in_handler functionName k caller) ->
  live_channel w = None ->
  sent (trace (step (settle tid s) w)) = sent (trace w).
Proof.
  intros Hp Hlive. unfold step, handle, settle_task, mbind at 1, get. simpl.
  rewrite Hp. simpl.
  assert (Hgo : forall s', 
    sent (trace (let '(r, w') := mbind (modify (fun w0 => set_pending (delete tid (pending w0)) w0))
                         (fun _ => resume_handler tid functionName k caller s') w in
                 match r with inr _ => w' | inl err => set_trace (trace w' ++ [Unhandled err]) w' end))
    = sent (trace w)).
  { intros s'. unfold mbind, modify.
    pose proof (resume_handler_without_channel tid functionName k caller s'
                  (set_pending (delete tid (pending w)) w) Hlive) as Hr.
    destruct (resume_handler _ _ _ _ _ _) as [[err|[]] w']; simpl in *; [|done].
    rewrite sent_app, Hr. simpl. by rewrite app_nil_r. }
  destruct s; try done; apply Hgo.
Qed.

(** ** Playback (C7) *)

Lemma step_decoded tid audio a w :
  pending w !! tid = Some (in_decode audio) ->
  audioContext w = Some a ->
  step (settle tid resolved) w
  = set_trace (trace w ++ [Started a audio]) (set_pending (delete tid (pending w)) w).
Proof.
  intros Hp Ha. unfold step, handle, settle_task, mbind at 1, get. simpl.
  rewrite Hp. simpl. unfold mbind, modify, play, try_catch, mbind, get. simpl.
  by rewrite Ha.
Qed.

(** C7, as the code has it.  Every chunk is started when its own
    decode completes: chunks whose decodes complete in some order are
    started in that order, whatever the order they arrived in.
    Playback order is arrival order when the decodes complete in
    arrival order. *)
Theorem playback_follows_decode_completion (a : nat) (completions : list (nat * string)) :
  forall w : World,
  audioContext w = Some a ->
  NoDup completions.*1 ->
  (forall tid audio, (tid, audio) ∈ completions -> pending w !! tid = Some (in_decode audio)) ->
  started (trace (run (map (fun c => settle c.1 resolved) completions) w))
  = started (trace w) ++ completions.*2.
Proof.
  induction completions as [|[tid audio] rest IH]; intros w Ha Hnd Hp.
  - simpl. by rewrite app_nil_r.
  - cbn [map fst]. rewrite run_cons.
    rewrite (step_decoded tid audio a) by (try done; apply Hp; left).
    apply NoDup_cons in Hnd as [Hnotin Hnd].
    rewrite IH; [| done | done |].
    + simpl. rewrite started_app. simpl. by rewrite <- app_assoc.
    + intros tid' audio' Hin. simpl. rewrite lookup_delete_ne; [apply Hp; by right|].
      intros ->. apply Hnotin. apply list_elem_of_fmap. by exists (tid', audio').
Qed.

End Completion.

(** ** Invariants of the event loop *)

Lemma preserves_ret {A} (I : World -> Prop) (a : A) : preserves I (ret a).
Proof. by intros w. Qed.

Lemma preserves_throw {A} (I : World -> Prop) (e : Thrown) : preserves I (throw (A:=A) e).
Proof. by intros w. Qed.

Lemma preserves_get (I : World -> Prop) : preserves I get.
Proof. by intros w. Qed.

Lemma preserves_modify (I : World -> Prop) (f : World -> World) :
  (forall w, I w -> I (f w)) -> preserves I (modify f).
Proof. intros Hf w. apply Hf. Qed.

Lemma preserves_bind {A B} (I : World -> Prop) (m : M A) (k : A -> M B) :
  preserves I m -> (forall a, preserves I (k a)) -> preserves I (mbind m k).
Proof.
  intros Hm Hk w Hw. unfold mbind. specialize (Hm w Hw).
  destruct (m w) as [[e|a] w']; simpl in *; [done|]. by apply Hk.
Qed.

Lemma preserves_try_catch {A} (I : World -> Prop) (m : M A) (h : Thrown -> M A) :
  preserves I m -> (forall e, preserves I (h e)) -> preserves I (try_catch m h).
Proof.
  intros Hm Hh w Hw. unfold try_catch. specialize (Hm w Hw).
  destruct (m w) as [[e|a] w']; simpl in *; [|done]. by apply Hh.
Qed.

Lemma preserves_forEach {A} (I : World -> Prop) (xs : list A) (f : A -> M unit) :
  (forall x, preserves I (f x)) -> preserves I (forEach xs f).
Proof.
  intros Hf. induction xs as [|x xs IH]; simpl; [apply preserves_ret|].
  apply preserves_bind; [apply Hf | by intros _].
Qed.

Lemma preserves_when (I : World -> Prop) (b : bool) (m : M unit) :
  preserves I m -> preserves I (when b m).
Proof. destruct b; [done|]. intros _. apply preserves_ret. Qed.

Lemma preserves_new_id (I : World -> Prop) :
  (forall w, I w -> I (set_fresh (S (fresh w)) w)) -> preserves I new_id.
Proof. intros Hf w. apply Hf. Qed.

Lemma preserves_get_bind {A} (I : World -> Prop) (k : World -> M A) :
  (forall w, I w -> I (k w w).2) -> preserves I (mbind get k).
Proof. intros Hk w Hw. by apply Hk. Qed.

Create HintDb preserves.

Ltac head_of t :=
  lazymatch t with
  | ?f _ => head_of f
  | _ => t
  end.

(** One step through the code of [m]: a rule of the monad, a case
    analysis, a lemma of the hint base, or the definition of [m].
    [on_modify] is given the goals [forall w, I w -> I (f w)]. *)
Ltac preserves_step on_modify :=
  lazymatch goal with
  | |- preserves _ (ret _) => apply preserves_ret
  | |- preserves _ (throw _) => apply preserves_throw
  | |- preserves _ get => apply preserves_get
  | |- preserves _ (mbind _ _) => apply preserves_bind; [|intros ?]
  | |- preserves _ (try_catch _ _) => apply preserves_try_catch; [|intros ?]
  | |- preserves _ (when _ _) => apply preserves_when
  | |- preserves _ (forEach _ _) => apply preserves_forEach; intros ?
  | |- preserves _ (modify _) => apply preserves_modify; on_modify
  | |- preserves _ new_id => apply preserves_new_id; on_modify
  | |- preserves _ (match ?x with _ => _ end) => destruct x eqn:?
  | |- preserves _ (from_option _ _ ?x) => destruct x; simpl
  | |- preserves _ (let _ := _ in _) => cbv zeta
  | |- preserves _ ?m =>
      first [ solve [eauto with preserves]
            | let h := head_of m in unfold h ]
  end.

Ltac preserves_auto on_modify := repeat (preserves_step on_modify).

(** *** An active session has its peer connection *)

Section ActiveHasPeer.
Context `{Platform}.

Ltac on_modify :=
  first [ solve [ intros ? ? ?; unfold active_has_peer in *; simpl in *;
                  repeat case_match; simpl in *; first [done | eauto] ]
        | idtac ].

Lemma active_cleanup : preserves active_has_peer cleanup.
Proof.
  intros w _ Hactive. destruct (cleanup_result w) as (_ & _ & _ & _ & _ & Hoff & _).
  congruence.
Qed.
#[local] Hint Resolve active_cleanup : preserves.

Lemma active_connect_step tid via_start stage s body :
  connect_step tid via_start stage s = Some body -> preserves active_has_peer body.
Proof.
  destruct stage, s; simpl; intros [= <-]; try solve [preserves_auto on_modify].
  intros w Hw. unfold this_peerConnection, mbind, get.
  destruct (peerConnection w) as [p|] eqn:Hp; simpl; [|done].
  intros _. simpl. by rewrite Hp.
Qed.

Lemma active_resume_task tid t s m :
  resume_task tid t s = Some m -> preserves active_has_peer m.
Proof.
  destruct t; simpl.
  - destruct (connect_step _ _ _ _) as [body|] eqn:Hb; simpl; intros [= <-].
    apply active_connect_step in Hb. preserves_auto on_modify.
  - destruct s; intros [= <-]; preserves_auto on_modify.
  - done.
  - destruct s; intros [= <-]; preserves_auto on_modify.
  - destruct s; intros [= <-]; preserves_auto on_modify.
Qed.

Lemma active_handleResponseContent (content : list ContentItem) :
  preserves active_has_peer (handleResponseContent content).
Proof.
  induction content as [|item rest IH]; cbn [handleResponseContent];
    preserves_auto on_modify.
Qed.
#[local] Hint Resolve active_handleResponseContent : preserves.

Lemma active_handle (e : Event) : preserves active_has_peer (handle e).
Proof.
  destruct e; unfold handle; preserves_auto on_modify.
  by eapply active_resume_task.
Qed.

Lemma active_step (e : Event) (w : World) :
  active_has_peer w -> active_has_peer (step e w).
Proof.
  intros Hw. unfold step. pose proof (active_handle e w Hw) as Hh.
  by destruct (handle e w) as [[err|[]] w'].
Qed.

Lemma reachable_active_has_peer (w : World) : reachable w -> active_has_peer w.
Proof. induction 1 as [autoplay|e w _ IH]; [done|]. by apply active_step. Qed.

Lemma reachable_run (es : list Event) : forall w, reachable w -> reachable (run es w).
Proof.
  induction es as [|e es IH]; intros w Hw; [done|].
  rewrite run_cons. apply IH. by constructor.
Qed.

(** ** The guard of [connect] (C9) *)

(** C9, as the code has it.  Once the peer connection exists, which
    is the case in every active session, [connect()] returns at its
    guard: it logs a message, raises no error, and leaves the session
    as it is; nothing is sent, so no second [session.update]. *)
Theorem connect_is_a_no_op_once_the_peer_exists (w : World) :
  reachable w ->
  isActive w = true \/ is_Some (peerConnection w) ->
  step call_connect w
  = set_trace (trace w ++ [Logged "WebRTC connection already exists"]) w.
Proof.
  intros Hr Hw.
  assert (is_Some (peerConnection w)) as [p Hp].
  { destruct Hw as [Hactive|]; [|done]. by apply reachable_active_has_peer. }
  unfold step, handle, connect, mbind, get. simpl. by rewrite Hp.
Qed.

End ActiveHasPeer.

(** *** No [response.create] behind a function call *)

Section NoResponseCreate.
Context `{Platform}.
Variable base : list Effect.

Lemma since_frame (f : World -> World) :
  (forall w, trace (f w) = trace w) ->
  forall w, no_response_create_since base w -> no_response_create_since base (f w).
Proof. intros Hf w (new & Ht & Hn). exists new. by rewrite Hf. Qed.

Lemma since_effect (e : Effect) :
  (forall c, e <> Sent c response_create) ->
  forall w, no_response_create_since base w ->
            no_response_create_since base (set_trace (trace w ++ [e]) w).
Proof.
  intros He w (new & Ht & Hn). exists (new ++ [e]). simpl. rewrite Ht.
  split; [by rewrite app_assoc|]. apply Forall_app. split; [done|].
  by apply Forall_singleton.
Qed.

Ltac on_modify :=
  first [ solve [apply since_effect; congruence]
        | solve [apply since_frame; intros ?; repeat case_match; reflexivity]
        | idtac ].

Lemma since_send c m :
  m <> response_create -> preserves (no_response_create_since base) (send c m).
Proof. intros Hm. unfold send. preserves_auto on_modify. Qed.

Lemma since_connect_step tid via_start stage s body :
  connect_step tid via_start stage s = Some body ->
  preserves (no_response_create_since base) body.
Proof. destruct stage, s; simpl; intros [= <-]; preserves_auto on_modify. Qed.

Lemma since_resume_task tid t s m :
  resume_task tid t s = Some m -> preserves (no_response_create_since base) m.
Proof.
  destruct t; simpl.
  - destruct (connect_step _ _ _ _) as [body|] eqn:Hb; simpl; intros [= <-].
    apply since_connect_step in Hb. preserves_auto on_modify.
  - destruct s; intros [= <-]; preserves_auto on_modify; by apply since_send.
  - done.
  - destruct s; intros [= <-]; preserves_auto on_modify.
  - destruct s; intros [= <-]; preserves_auto on_modify.
Qed.

Lemma since_settle tid s : preserves (no_response_create_since base) (settle_task tid s).
Proof. unfold settle_task. preserves_auto on_modify. by eapply since_resume_task. Qed.

Lemma since_advance ms : preserves (no_response_create_since base) (advance ms).
Proof. unfold advance. preserves_auto on_modify. Qed.

Lemma since_cleanup : preserves (no_response_create_since base) cleanup.
Proof. unfold cleanup. preserves_auto on_modify. Qed.
#[local] Hint Resolve since_cleanup : preserves.

Lemma since_handleResponseContent (content : list ContentItem) :
  preserves (no_response_create_since base) (handleResponseContent content).
Proof.
  induction content as [|item rest IH]; cbn [handleResponseContent];
    preserves_auto on_modify; by apply since_send.
Qed.
#[local] Hint Resolve since_handleResponseContent : preserves.

Lemma since_handle (e : Event) :
  requests_a_response e = false -> preserves (no_response_create_since base) (handle e).
Proof.
  intros He. destruct e; try done;
    try match goal with m : Inbound |- _ => destruct m as [?|[]]; try done end;
    clear He; unfold handle;
    first [ apply since_settle
          | solve [preserves_auto on_modify; by apply since_send] ].
Qed.

End NoResponseCreate.

(** A [response.create] is sent when the channel opens and when the
    input buffer is committed, and nowhere else: not behind a function
    call, whatever becomes of it. *)
Lemma no_response_create_unless_requested `{Platform} (e : Event) (w : World) :
  requests_a_response e = false -> no_response_create_since (trace w) (step e w).
Proof.
  intros He.
  assert (Hbase : no_response_create_since (trace w) w).
  { exists []. by rewrite app_nil_r. }
  unfold step. pose proof (since_handle (trace w) e He w Hbase) as Hh.
  destruct (handle e w) as [[err|[]] w']; simpl in *; [|done].
  by apply since_effect.
Qed.

(** *** The channels the client knows *)

Section ChannelsKnown.
Context `{Platform}.

Lemma known_frame (f : World -> World) :
  (forall w, channels (f w) = channels w) ->
  (forall w, fresh w ≤ fresh (f w)) ->
  (forall w, dataChannel (f w) = dataChannel w \/ dataChannel (f w) = None) ->
  forall w, channels_known w -> channels_known (f w).
Proof.
  intros Hch Hfr Hdc w [Hlt Hin]. split.
  - intros c. rewrite Hch. intros Hc%Hlt. specialize (Hfr w). lia.
  - intros c. rewrite Hch. destruct (Hdc w) as [-> | ->]; [apply Hin | done].
Qed.

Lemma known_channels (c : nat) (st : ReadyState) (w : World) :
  is_Some (channels w !! c) ->
  channels_known w -> channels_known (set_channels (<[c := st]> (channels w)) w).
Proof.
  intros Hc [Hlt Hin]. split; simpl; intros c'.
  - destruct (decide (c = c')) as [->|Hne]; [by auto|]. rewrite lookup_insert_ne by done.
    apply Hlt.
  - intros Hdc%Hin. destruct (decide (c = c')) as [->|Hne].
    + by rewrite lookup_insert_eq.
    + by rewrite lookup_insert_ne.
Qed.

Ltac on_modify :=
  first [ solve [ apply known_frame; intros ?; simpl; first [done | lia | by left | by right] ]
        | solve [ intros ? ?; repeat case_match; try done;
                  apply known_channels; try done; by eexists ]
        | idtac ].

Lemma known_cleanup : preserves channels_known cleanup.
Proof. unfold cleanup. preserves_auto on_modify. Qed.
#[local] Hint Resolve known_cleanup : preserves.

(** [this.dataChannel = this.peerConnection.createDataChannel(...)] *)
Lemma known_create_channel {A} (k : nat -> M A) :
  (forall c, preserves channels_known (k c)) ->
  preserves channels_known
    (c <- new_id ;;
     modify (fun w => set_channels (<[c := connecting]> (channels w)) w) ;;;
     modify (set_dataChannel (Some c)) ;;;
     k c)%M.
Proof.
  intros Hk w [Hlt Hin]. unfold mbind at 1, new_id. unfold mbind at 1 2, modify.
  apply Hk. split; simpl; intros c.
  - destruct (decide (fresh w = c)) as [<-|Hne]; [lia|]. rewrite lookup_insert_ne by done.
    intros Hc%Hlt. lia.
  - intros [= <-]. by rewrite lookup_insert_eq.
Qed.

Lemma known_connect_step tid via_start stage s body :
  connect_step tid via_start stage s = Some body -> preserves channels_known body.
Proof.
  destruct stage, s; simpl; intros [= <-]; try solve [preserves_auto on_modify].
  do 3 (apply preserves_bind; [preserves_auto on_modify | intros ?]).
  apply known_create_channel. intros c. preserves_auto on_modify.
Qed.

Lemma known_resume_task tid t s m :
  resume_task tid t s = Some m -> preserves channels_known m.
Proof.
  destruct t; simpl.
  - destruct (connect_step _ _ _ _) as [body|] eqn:Hb; simpl; intros [= <-].
    apply known_connect_step in Hb. preserves_auto on_modify.
  - destruct s; intros [= <-]; preserves_auto on_modify.
  - done.
  - destruct s; intros [= <-]; preserves_auto on_modify.
  - destruct s; intros [= <-]; preserves_auto on_modify.
Qed.

Lemma known_handleResponseContent (content : list ContentItem) :
  preserves channels_known (handleResponseContent content).
Proof.
  induction content as [|item rest IH]; cbn [handleResponseContent];
    preserves_auto on_modify.
Qed.
#[local] Hint Resolve known_handleResponseContent : preserves.

Lemma known_handle (e : Event) : preserves channels_known (handle e).
Proof.
  destruct e; unfold handle; try solve [preserves_auto on_modify].
  - apply preserves_get_bind. intros w Hw. case_decide as Hconn; [|done].
    unfold mbind at 1, modify.
    assert (Hw' : channels_known (set_channels (<[channel := open]> (channels w)) w))
      by (apply known_channels; [by eexists | done]).
    revert Hw'. generalize (set_channels (<[channel := open]> (channels w)) w).
    change (preserves channels_known onopen). preserves_auto on_modify.
  - apply preserves_get_bind. intros w Hw.
    destruct (channels w !! channel) as [st|] eqn:Hst; [|done].
    assert (Hw' : channels_known (set_channels (<[channel := closed]> (channels w)) w))
      by (apply known_channels; [by eexists | done]).
    destruct st; try done; unfold mbind at 1, modify;
      (revert Hw'; generalize (set_channels (<[channel := closed]> (channels w)) w);
       change (preserves channels_known (effect (Emitted ev_datachannel_close)));
       preserves_auto on_modify).
  - preserves_auto on_modify. by eapply known_resume_task.
Qed.

Lemma known_step (e : Event) (w : World) : channels_known w -> channels_known (step e w).
Proof.
  intros Hw. unfold step. pose proof (known_handle e w Hw) as Hh.
  destruct (handle e w) as [[err|[]] w']; simpl in *; [|done].
  revert Hh. apply (known_frame (fun w0 => set_trace (trace w0 ++ [Unhandled err]) w0));
    intros; simpl; first [done | by left].
Qed.

Lemma reachable_channels_known (w : World) : reachable w -> channels_known w.
Proof.
  induction 1 as [autoplay|e w _ IH]; [|by apply known_step].
  split; simpl; intros c; [|done]. rewrite lookup_empty. by intros [? ?].
Qed.

End ChannelsKnown.

(** *** A channel the client has closed *)

Lemma sent_on_app c (tr1 tr2 : list Effect) :
  sent_on c (tr1 ++ tr2) = sent_on c tr1 ++ sent_on c tr2.
Proof. apply omap_app. Qed.

Section TornDown.
Context `{Platform}.
Variables (c : nat) (base : list ClientEvent).
Local Abbreviation I := (torn_down c base).

Lemma torn_frame (f : World -> World) :
  (forall w, channels (f w) = channels w) ->
  (forall w, fresh w ≤ fresh (f w)) ->
  (forall w, sent_on c (trace (f w)) = sent_on c (trace w)) ->
  forall w, I w -> I (f w).
Proof.
  intros Hch Hfr Htr w (Hc & Hf & Hs). split; [by rewrite Hch|].
  split; [specialize (Hfr w); lia | by rewrite Htr].
Qed.

Lemma torn_channels (c' : nat) (st : ReadyState) (w : World) :
  (c' = c -> st = closing \/ st = closed) ->
  I w -> I (set_channels (<[c' := st]> (channels w)) w).
Proof.
  intros Hst (Hc & Hf & Hs). split; [|done]. simpl.
  destruct (decide (c' = c)) as [->|Hne].
  - rewrite lookup_insert_eq. destruct (Hst eq_refl) as [-> | ->]; auto.
  - by rewrite lookup_insert_ne.
Qed.

Ltac on_modify :=
  first [ solve [ apply torn_frame; intros ?; simpl;
                  rewrite ?sent_on_app, ?app_nil_r; simpl; rewrite ?app_nil_r;
                  first [done | lia] ]
        | solve [ intros ? ?; repeat case_match; try done;
                  apply torn_channels; try done;
                  first [ solve [intros _; auto] | solve [intros ?; subst; contradiction] ] ]
        | idtac ].

(** Nothing goes out on a channel that is not open. *)
Lemma torn_send c' m : preserves I (send c' m).
Proof.
  unfold send. apply preserves_get_bind. intros w Hw.
  case_decide as Hopen; [|done].
  destruct Hw as (Hc & Hf & Hs). split; [done|]. split; [done|]. simpl.
  rewrite sent_on_app, Hs. simpl. case_decide as Heq; [|by rewrite app_nil_r].
  subst c'. destruct Hc; congruence.
Qed.
#[local] Hint Resolve torn_send : preserves.

(** A new channel is not the closed one. *)
Lemma torn_new_id {A} (k : nat -> M A) :
  (forall c', c' <> c -> preserves I (k c')) ->
  preserves I (mbind new_id k).
Proof.
  intros Hk w Hw. unfold mbind at 1, new_id.
  apply Hk; [destruct Hw as (_ & Hf & _); lia|].
  revert Hw. apply (torn_frame (fun w => set_fresh (S (fresh w)) w));
    intros; simpl; first [done | lia].
Qed.

Ltac torn_auto :=
  repeat first [ apply torn_new_id; intros ? ? | preserves_step on_modify ].

Lemma torn_cleanup : preserves I cleanup.
Proof. unfold cleanup. torn_auto. Qed.
#[local] Hint Resolve torn_cleanup : preserves.

Lemma torn_connect_step tid via_start stage s body :
  connect_step tid via_start stage s = Some body -> preserves I body.
Proof. destruct stage, s; simpl; intros [= <-]; torn_auto. Qed.

Lemma torn_resume_task tid t s m : resume_task tid t s = Some m -> preserves I m.
Proof.
  destruct t; simpl.
  - destruct (connect_step _ _ _ _) as [body|] eqn:Hb; simpl; intros [= <-].
    apply torn_connect_step in Hb. torn_auto.
  - destruct s; intros [= <-]; torn_auto.
  - done.
  - destruct s; intros [= <-]; torn_auto.
  - destruct s; intros [= <-]; torn_auto.
Qed.

Lemma torn_handleResponseContent (content : list ContentItem) :
  preserves I (handleResponseContent content).
Proof.
  induction content as [|item rest IH]; cbn [handleResponseContent]; torn_auto.
Qed.
#[local] Hint Resolve torn_handleResponseContent : preserves.

Lemma torn_handle (e : Event) : preserves I (handle e).
Proof.
  destruct e; unfold handle; try solve [torn_auto].
  - apply preserves_get_bind. intros w Hw. case_decide as Hconn; [|done].
    unfold mbind at 1, modify.
    assert (Hw' : I (set_channels (<[channel := open]> (channels w)) w)).
    { destruct Hw as (Hc & Hf & Hs). split; [|done]. simpl.
      rewrite lookup_insert_ne; [done|]. intros ->. destruct Hc; congruence. }
    revert Hw'. generalize (set_channels (<[channel := open]> (channels w)) w).
    change (preserves I onopen). torn_auto.
  - torn_auto. by eapply torn_resume_task.
Qed.

Lemma torn_step (e : Event) (w : World) : I w -> I (step e w).
Proof.
  intros Hw. unfold step. pose proof (torn_handle e w Hw) as Hh.
  destruct (handle e w) as [[err|[]] w']; simpl in *; [|done].
  revert Hh. apply (torn_frame (fun w0 => set_trace (trace w0 ++ [Unhandled err]) w0));
    intros; simpl; rewrite ?sent_on_app, ?app_nil_r; simpl; rewrite ?app_nil_r; done.
Qed.

Lemma torn_run (es : list Event) : forall w, I w -> I (run es w).
Proof.
  induction es as [|e es IH]; intros w Hw; [done|].
  rewrite run_cons. apply IH. by apply torn_step.
Qed.

End TornDown.

(** ** The send-site behind the handler (C8) *)

Section Teardown.
Context `{Platform}.

Lemma cleanup_closes_channel (w : World) (c : nat) :
  dataChannel w = Some c ->
  is_Some (channels w !! c) ->
  let w' := (cleanup w).2 in
  channels w' !! c = Some closing \/ channels w' !! c = Some closed.
Proof.
  intros Hdc [st Hst].
  unfold cleanup, close_channel, close_peer, close_context, mbind, get, modify,
    effect, modify, ret.
  rewrite Hdc.
  destruct (mediaStream w), (peerConnection w), (audioContext w);
    simpl; rewrite Hst; destruct st; simpl; repeat case_decide; simpl;
    rewrite ?lookup_insert_eq; auto.
Qed.

Lemma disconnect_tears_down (w : World) (c : nat) :
  channels_known w ->
  dataChannel w = Some c ->
  let w1 := step call_disconnect w in
  torn_down c (sent_on c (trace w1)) w1.
Proof.
  intros [Hlt Hin] Hdc w1. subst w1. rewrite step_disconnect_eq. cbv zeta.
  pose proof (cleanup_closes_channel (set_isActive false w) c Hdc (Hin c Hdc)) as Hcl.
  destruct (cleanup_result (set_isActive false w))
    as (_ & _ & _ & _ & _ & _ & _ & _ & _ & Hfresh & _).
  split; [exact Hcl|]. split; [|done]. simpl. rewrite Hfresh. simpl. by apply Hlt, Hin.
Qed.


End Teardown.

(** ** Failures of a call (C3) *)

Section Failures.
Context `{Platform}.

(** When the body of the [try] throws before anything is awaited and
    the channel is open, the error goes back under the call id of
    the stored call and the slot is reset. *)
Lemma guarded_failure functionName (body : M Progress) e fc c w :
  body w = (inl e, w) ->
  functionCall w = Some fc ->
  dataChannel w = Some c ->
  channels w !! c = Some open ->
  exists w', guarded functionName body w = (inr completed, w') /\
    trace w' = trace w ++ [Sent c (function_call_output (call_id fc)
                                     (output_error (error_text functionName e)))] /\
    call_is_reset w' /\ pending w' = pending w.
Proof.
  intros Hbody Hfc Hdc Hopen.
  unfold guarded, on_error, this_call_id, live_channel, reset_call,
    mbind, try_catch, get, ret, modify.
  rewrite Hbody, Hdc, decide_True, Hfc, send_open by done.
  eexists. split; [reflexivity|]. done.
Qed.

Lemma step_done_failure c c' name call_id e w :
  channels w !! c = Some open ->
  dataChannel w = Some c' ->
  channels w !! c' = Some open ->
  (forall w', (args <- parse_arguments (functionCallArgumentsBuffer w) ;;
               dispatch name by_message args)%M w' = (inl e, w')) ->
  let w' := step (done_event c name call_id) w in
  trace w' = trace w ++ [Sent c' (function_call_output call_id
                                    (output_error (error_text name e)))] /\
  call_is_reset w' /\ pending w' = pending w.
Proof.
  intros Hc Hdc Hopen Hbody w'.
  enough (exists w3, w' = w3 /\
    trace w3 = trace w ++ [Sent c' (function_call_output call_id
                                      (output_error (error_text name e)))] /\
    call_is_reset w3 /\ pending w3 = pending w) as (w3 & -> & Hw3); [done|].
  subst w'. unfold step, done_event, handle, mbind at 1, get. simpl.
  rewrite decide_True by done.
  unfold handleWebSocketMessage, try_catch at 1, mbind at 1. simpl.
  unfold mbind at 1. unfold arguments_done, mbind at 1 2 3, get, modify. simpl.
  unfold mbind at 1. unfold handleFunctionCall, mbind at 1, get. simpl. rewrite Hdc.
  match goal with |- context [guarded name ?body ?w2] =>
    destruct (guarded_failure name body e
                {| VoiceAgent.name := name; arguments := functionCallArgumentsBuffer w;
                   call_id := call_id |} c' w2)
      as (w3 & -> & Htrace & Hreset & Hpending); [apply Hbody | done..|]
  end.
  simpl. eexists. split; [reflexivity|]. done.
Qed.

(** A name the [switch] does not know is answered with an error. *)
Lemma unknown_function_is_answered c c' name call_id w :
  channels w !! c = Some open ->
  dataChannel w = Some c' ->
  channels w !! c' = Some open ->
  functionCallArgumentsBuffer w = ""
  \/ (exists args, JSON_parse (functionCallArgumentsBuffer w) = inr args) ->
  name ∉ switch_names ->
  let w' := step (done_event c name call_id) w in
  trace w' = trace w ++ [Sent c' (function_call_output call_id
                           (output_error (error_text name (unknown_function name))))] /\
  call_is_reset w' /\ pending w' = pending w.
Proof.
  intros Hc Hdc Hopen Hargs Hout. apply step_done_failure; try done.
  intros w'.
  assert (exists args, parse_arguments (functionCallArgumentsBuffer w) w' = (inr args, w'))
    as [args Hparse].
  { unfold parse_arguments. destruct Hargs as [-> | [args Hargs]]; [by eexists|].
    destruct (truthy_string _); [rewrite Hargs|]; by eexists. }
  unfold mbind at 1. rewrite Hparse. unfold dispatch, mbind at 1.
  case_bool_decide; simpl; [|done].
  unfold mbind at 1. by rewrite call_handler_unknown.
Qed.

(** Arguments that are not valid JSON are answered with an error. *)
Lemma malformed_arguments_are_answered c c' name call_id syntax_error w :
  channels w !! c = Some open ->
  dataChannel w = Some c' ->
  channels w !! c' = Some open ->
  functionCallArgumentsBuffer w <> "" ->
  JSON_parse (functionCallArgumentsBuffer w) = inl syntax_error ->
  let w' := step (done_event c name call_id) w in
  trace w' = trace w ++ [Sent c' (function_call_output call_id
                           (output_error (error_text name (JsError syntax_error))))] /\
  call_is_reset w' /\ pending w' = pending w.
Proof.
  intros Hc Hdc Hopen Hne Hparse. apply step_done_failure; try done.
  intros w'. unfold mbind, parse_arguments, truthy_string.
  destruct (String.eqb_spec (functionCallArgumentsBuffer w) ""); [done|]. simpl.
  by rewrite Hparse.
Qed.

(** A handler that throws is answered with an error, provided the
    call slot still holds a call and the channel is open when it
    throws. *)
Lemma failed_handler_is_answered tid functionName k caller e e' fc c w :
  pending w !! tid = Some (in_handler functionName k caller) ->
  k (Rejected e) = Raise e' ->
  functionCall w = Some fc ->
  dataChannel w = Some c ->
  channels w !! c = Some open ->
  let w' := step (settle tid (rejected e)) w in
  trace w' = trace w ++ [Sent c (function_call_output (call_id fc)
                                   (output_error (error_text functionName e')))] /\
  call_is_reset w' /\ pending w' = delete tid (pending w).
Proof.
  intros Hp Hk Hfc Hdc Hopen w'.
  enough (exists w3, w' = w3 /\
    trace w3 = trace w ++ [Sent c (function_call_output (call_id fc)
                                     (output_error (error_text functionName e')))] /\
    call_is_reset w3 /\ pending w3 = delete tid (pending w)) as (w3 & -> & Hw3); [done|].
  subst w'. unfold step, handle, settle_task, mbind at 1, get. simpl. rewrite Hp. simpl.
  unfold mbind at 1, modify. unfold resume_handler, deliver, try_catch at 1, mbind at 1.
  rewrite Hk.
  match goal with |- context [guarded functionName ?body ?w2] =>
    destruct (guarded_failure functionName body e' fc c w2)
      as (w3 & -> & Htrace & Hreset & Hpending); [done..|]
  end.
  simpl. eexists. split; [reflexivity|]. done.
Qed.

(** When the slot has been emptied in the meantime, by the reset of
    another call, the [catch] block itself throws on
    [this.functionCall.call_id], and the [catch] of
    [handleWebSocketMessage] emits the [TypeError] as a session error;
    nothing is sent. *)
Lemma failed_handler_with_empty_slot tid functionName k e e' c w :
  pending w !! tid = Some (in_handler functionName k by_message) ->
  k (Rejected e) = Raise e' ->
  functionCall w = None ->
  dataChannel w = Some c ->
  channels w !! c = Some open ->
  trace (step (settle tid (rejected e)) w)
  = trace w ++ [Emitted (ev_error (JsError (TypeError_null "call_id")))].
Proof.
  intros Hp Hk Hfc Hdc Hopen.
  unfold step, handle, settle_task, mbind at 1, get. simpl. rewrite Hp. simpl.
  unfold mbind at 1, modify. unfold resume_handler, deliver, try_catch at 1, mbind at 1.
  rewrite Hk. unfold guarded, mbind at 1, try_catch, run_handler, throw.
  unfold mbind at 1, on_error, mbind at 1, get. simpl.
  unfold live_channel. simpl. rewrite Hdc, decide_True by done.
  unfold mbind at 1, this_call_id, mbind at 1, get. simpl. by rewrite Hfc.
Qed.

End Failures.

(** ** The earlier revision *)

Section EarlierRevision.
Context `{Platform}.

(** There the output is followed at once by [response.create]. *)
Lemma legacy_output_then_response_create (result : jsval) (c : nat) (w : World) :
  dataChannel w = Some c ->
  channels w !! c = Some open ->
  exists w', Legacy.on_result result w = (inr (), w') /\
    trace w' = trace w ++ [Sent c (system_function_call_output (output_result result));
                           Sent c response_create].
Proof.
  intros Hdc Hopen.
  unfold Legacy.on_result, mbind at 1, Legacy.this_dataChannel_send, mbind at 1, get.
  simpl. rewrite Hdc, send_open by done.
  unfold mbind, get. simpl. rewrite Hdc, send_open by done. simpl.
  eexists. split; [reflexivity|]. simpl. by rewrite <- app_assoc.
Qed.

(** There too an empty argument text stands for the empty object. *)
Lemma legacy_empty_arguments (fc : FunctionCall) (c : nat) (w : World) :
  functionCall w = Some fc ->
  dataChannel w = Some c ->
  functionCallArgs w = "" ->
  Legacy.handleFunctionCall w
  = Legacy.guarded (name fc) (Legacy.dispatch (name fc) (JObj [])) w.
Proof.
  intros Hfc Hdc Hargs. unfold Legacy.handleFunctionCall, mbind at 1, get. simpl.
  rewrite Hfc, Hdc, Hargs. reflexivity.
Qed.

End EarlierRevision.

(** * The claims on a sample session *)

Section Examples.
Import Sample.
#[local] Existing Instance browser.

Lemma connected_is_reachable : reachable connected.
Proof. apply reachable_run. constructor. Qed.

Lemma travelling_is_reachable : reachable travelling.
Proof. apply reachable_run, connected_is_reachable. Qed.

(** ** C1: transitions are not validated *)

(** C1.  The documented validator rejects [CLOCKED_IN -> AT_JOBSITE],
    but no handler consults it: [end_travel] begins with the request
    that sets the remote state to [AT_JOBSITE], [update_workflow_state]
    is that request alone for any target state, and on the sample
    session a call of [end_travel] issues the request whatever state
    the technician is in. *)
Theorem handlers_patch_without_validation :
  validateStateTransition CLOCKED_IN AT_JOBSITE = false /\
  (forall work_order_id technician_id : jsval,
      exists k, end_travel work_order_id technician_id
                = Await (PATCH_workflow_state technician_id (lit (state_name AT_JOBSITE))
                           (parseInt work_order_id) undefined) k) /\
  (forall (technician_id : jsval) (target : WorkflowState),
      update_workflow_state technician_id (lit (state_name target)) None None
      = api.updateWorkflowState technician_id (lit (state_name target))
          undefined undefined) /\
  trace (run (travel_deltas ++ [done_event 3 "end_travel" (Some "call_1")]) connected)
  = trace connected
    ++ [Awaiting 4 (request (PATCH_workflow_state (Some (JStr "3")) (lit "AT_JOBSITE")
                               (parseInt (Some (JStr "7"))) undefined))].
Proof.
  split; [reflexivity|]. split; [intros; eexists; reflexivity|].
  split; [reflexivity|]. by vm_compute.
Qed.

(** ** C2: the buffer of an open call is reset *)



(** ** C3: a failure that reaches the session *)

(** C3 fails where two calls overlap.  [start_travel] is in flight
    when [update_workflow_state], which the [switch] does not know, is
    answered with an error and the call slot is reset.  When the request
    of [start_travel] then fails, its [catch] block throws on the empty
    slot: no error payload is sent for [call_1], and the session gets an
    [error] event. *)
Theorem overlapping_call_raises_a_session_error :
  let w := run [done_event 3 "update_workflow_state" (Some "call_2");
                settle 4 (rejected (JsError "Network Error"))] travelling in
  trace w
  = trace travelling
    ++ [Sent 3 (function_call_output (Some "call_2")
                  (output_error (error_text "update_workflow_state"
                                   (unknown_function "update_workflow_state"))));
        Emitted (ev_error (JsError (TypeError_null "call_id")))] /\
  session_errors (trace w) = [JsError (TypeError_null "call_id")] /\
  pending w = ∅.
Proof. by vm_compute. Qed.

(** ** C4 and C5 on the sample session *)



(** ** C6: no next turn behind the output *)

(** C6 fails.  Whatever the arrival of [arguments.done], a settled
    promise or the passing of time sets off, no [response.create] is
    sent; and on the sample session, when [start_travel] has succeeded,
    its output goes out under [call_1] and the 500 ms and more pass
    without anything else being sent. *)
Theorem no_response_create_follows_the_output :
  (forall (P : Platform) (w : World),
      (forall c name call_id,
          no_response_create_since (trace w) (step (done_event c name call_id) w)) /\
      (forall tid s, no_response_create_since (trace w) (step (settle tid s) w)) /\
      (forall ms, no_response_create_since (trace w) (step (tick ms) w))) /\
  let result := Some (JObj [("ok", JBool true)]) in
  sent (trace (run [settle 4 (resolved_json (Some (JObj [])));
                    settle 4 (resolved_json result);
                    tick 500; tick 4500] travelling))
  = sent (trace travelling)
    ++ [(3, function_call_output (Some "call_1") (output_result result))].
Proof.
  split; [|by vm_compute].
  intros P w. repeat split; intros; by apply no_response_create_unless_requested.
Qed.

(** ** C7: playback in the order of decoding *)

(** C7 fails.  Chunk A arrives before chunk B and its decode is asked
    for first; the decode of B completes first, and B is started
    first. *)
Lemma later_chunk_plays_first :
  requests (trace two_chunks) = requests (trace connected) /\
  drop (length (trace connected)) (trace two_chunks)
  = [Awaiting 4 (decodeAudioData 0 chunk_A); Awaiting 5 (decodeAudioData 0 chunk_B)] /\
  started (trace (run [settle 5 resolved; settle 4 resolved] two_chunks))
  = [chunk_B; chunk_A].
Proof. by vm_compute. Qed.

Lemma playback_follows_decode_completion_witness :
  audioContext two_chunks = Some 0 /\
  NoDup completion_order.*1 /\
  (forall tid audio, (tid, audio) ∈ completion_order ->
                     pending two_chunks !! tid = Some (in_decode audio)) /\
  started (trace (run (map (fun c => settle c.1 resolved) completion_order) two_chunks))
  = started (trace two_chunks) ++ completion_order.*2.
Proof.
  assert (H1 : audioContext two_chunks = Some 0) by by vm_compute.
  assert (H2 : NoDup completion_order.*1) by (apply (bool_decide_unpack _); by vm_compute).
  assert (H3 : forall tid audio, (tid, audio) ∈ completion_order ->
                 pending two_chunks !! tid = Some (in_decode audio)).
  { intros tid audio Hin. unfold completion_order in Hin.
    repeat (apply elem_of_cons in Hin as [[= -> ->] | Hin]); [by vm_compute.. |].
    exfalso. exact (proj1 (elem_of_nil _) Hin). }
  split; [exact H1|]. split; [exact H2|]. split; [exact H3|].
  exact (playback_follows_decode_completion 0 completion_order two_chunks H1 H2 H3).
Defined.

(** ** C8, C9 and C10 on the sample session *)


(** The guard behind the handler reads [dataChannel] as it is when the
    handler returns: when the session has connected again by then,
    nothing goes out on the closed channel 3 and the output of [call_1]
    goes out on the new channel 7. *)
Lemma result_after_reconnection_uses_the_new_channel :
  let s := resolved_json (Some (JObj [])) in
  let w := run [settle 4 s; settle 4 s] reconnected in
  dataChannel reconnected = Some 7 /\
  channels reconnected !! 3 = Some closing /\
  sent_on 3 (trace w) = sent_on 3 (trace travelling) /\
  sent_on 7 (trace w)
  = sent_on 7 (trace reconnected)
    ++ [function_call_output (Some "call_1") (output_result (Some (JObj [])))].
Proof. by vm_compute. Qed.

(** C9 fails.  A second [connect()] while the first still waits for
    its token passes the guard: a second token is requested, and when
    the tokens are there each call creates a peer connection of its
    own. *)
Lemma second_connect_while_connecting :
  trace (run [call_connect; call_connect] (init running))
  = [Awaiting 1 fetch_token; Awaiting 2 fetch_token] /\
  trace (run [call_connect; call_connect;
              settle 1 (resolved_response true); settle 2 (resolved_response true);
              settle 1 (resolved_json token_json); settle 2 (resolved_json token_json)]
           (init running))
  = [Awaiting 1 fetch_token; Awaiting 2 fetch_token;
     Awaiting 1 read_json; Awaiting 2 read_json;
     CreatedPeer 3; Awaiting 1 getUserMedia;
     CreatedPeer 4; Awaiting 2 getUserMedia].
Proof. by vm_compute. Qed.

Lemma connect_is_a_no_op_once_the_peer_exists_witness :
  reachable connected /\
  (isActive connected = true \/ is_Some (peerConnection connected)) /\
  step call_connect connected
  = set_trace (trace connected ++ [Logged "WebRTC connection already exists"]) connected.
Proof.
  assert (H1 : isActive connected = true \/ is_Some (peerConnection connected))
    by (left; by vm_compute).
  split; [exact connected_is_reachable|]. split; [assumption|].
  exact (connect_is_a_no_op_once_the_peer_exists connected connected_is_reachable H1).
Defined.

Lemma empty_arguments_are_the_empty_object_witness :
  channels connected !! 3 = Some open /\
  dataChannel connected = Some 3 /\
  functionCallArgumentsBuffer connected = "" /\
  "check_inventory" ∈ switch_names /\
  (forall w', parse_arguments "" w' = (inr (JObj []), w')) /\
  exists r k,
    (forall w', call_handler "check_inventory" (JObj []) w' = (inr (Await r k), w')) /\
    step (done_event 3 "check_inventory" (Some "call_1")) connected
    = set_pending (<[fresh connected := in_handler "check_inventory" k by_message]>
                     (pending connected))
        (set_trace (trace connected ++ [Awaiting (fresh connected) (request r)])
           (set_fresh (S (fresh connected))
              (set_functionCallArgs ""
                 (set_functionCall
                    (Some {| VoiceAgent.name := "check_inventory"; arguments := "";
                             call_id := Some "call_1" |})
                    connected)))).
Proof.
  assert (H1 : channels connected !! 3 = Some open) by by vm_compute.
  assert (H2 : dataChannel connected = Some 3) by by vm_compute.
  assert (H3 : functionCallArgumentsBuffer connected = "") by by vm_compute.
  assert (H4 : "check_inventory" ∈ switch_names)
    by (apply (bool_decide_unpack _); by vm_compute).
  split; [exact H1|]. split; [exact H2|]. split; [exact H3|]. split; [exact H4|].
  exact (empty_arguments_are_the_empty_object connected 3 3 "check_inventory"
           (Some "call_1") H1 H2 H3 H4).
Defined.

End Examples.
